(** * Unreal Engine 1 vertex-animation exporter (io_mesh_unreal1)

    A shallow embedding of [io_mesh_unreal1/__init__.py] and the properties
    of its two binary encoders: the animation file ([_a.3d], packed vertex
    positions per frame) and the data file ([_d.3d], header and one record
    per triangle).

    Python values are modelled as follows.
    - [int] is [Z]; [&], [|] and [<<] are [Z.land], [Z.lor] and [Z.shiftl]
      (two's complement on unbounded integers, as in Python).
    - [float] is an IEEE-754 binary64 number, [spec_float] with precision 53
      and maximal exponent 1024; arithmetic is the correctly rounded
      arithmetic of [SpecFloat].
    - [bytes] is [list byte]; [struct.pack] is written out per format code,
      for a little-endian machine and a C data model given as a parameter.
    - [str] is the list of its code points; [str.lower] is written out
      with the character data of CPython 3.11.
    - an exception is the [Raise] branch of [result].

    Blender's own operations (dependency graph, triangulation, face
    reversal) are not part of the repository; what the exporter reads from
    them is data of the model.  The snapshot the exporter works on has been
    triangulated, so a face is a triangle; a vector of Blender's [mathutils]
    stores its components in single precision. *)

From Stdlib Require Import ZArith List String Ascii Bool Lia QArith.
From Stdlib Require Import Floats.SpecFloat.
From coqutil Require Import Byte Word.LittleEndianList.
Import ListNotations.

Local Open Scope Z_scope.

(** ** Exceptions and results *)

Inductive exn : Type :=
| ValueError        (* int(nan) *)
| OverflowError     (* int(inf) *)
| ZeroDivisionError (* x / 0.0 *)
| TypeError         (* item assignment on a tuple *)
| StructError.      (* struct.error: argument out of range *)

Inductive result (A : Type) : Type :=
| Ok (a : A)
| Raise (e : exn).

Arguments Ok {A} a.
Arguments Raise {A} e.

Definition bind {A B : Type} (r : result A) (k : A -> result B) : result B :=
  match r with
  | Ok a => k a
  | Raise e => Raise e
  end.

Notation "x <- r ;; k" := (bind r (fun x => k))
  (at level 61, r at next level, right associativity).

Definition is_ok {A : Type} (r : result A) : bool :=
  match r with Ok _ => true | Raise _ => false end.

(** ** Python floats *)

Module PyFloat.

Definition float : Type := spec_float.

Definition prec : Z := 53.
Definition emax : Z := 1024.

Definition nan : float := S754_nan.
Definition inf : float := S754_infinity false.

(** [float(n)] for an [int] literal or operand (exact below 2^53). *)
Definition of_int (n : Z) : float := binary_normalize prec emax n 0 false.

Definition mul (x y : float) : float := SFmul prec emax x y.
Definition add (x y : float) : float := SFadd prec emax x y.
Definition sub (x y : float) : float := SFsub prec emax x y.
Definition neg (x : float) : float := SFopp x.

(** [x / y] raises [ZeroDivisionError] on a zero divisor. *)
Definition div (x y : float) : result float :=
  match y with
  | S754_zero _ => Raise ZeroDivisionError
  | _ => Ok (SFdiv prec emax x y)
  end.

(** Comparisons: any comparison with NaN is [False]. *)
Definition le (x y : float) : bool := SFleb x y.
Definition lt (x y : float) : bool := SFltb x y.
Definition ge (x y : float) : bool := SFleb y x.

Definition is_nan (x : float) : bool :=
  match x with S754_nan => true | _ => false end.

Definition is_finite (x : float) : bool :=
  match x with
  | S754_zero _ | S754_finite _ _ _ => true
  | _ => false
  end.

(** Every Python float is a valid binary64 datum. *)
Definition valid (x : float) : bool := valid_binary prec emax x.

(** [int(x)]: the integral part of [x]; bits below the binary point are
    dropped from the magnitude.  Raises on NaN and on the infinities. *)
Definition to_int (x : float) : result Z :=
  match x with
  | S754_nan => Raise ValueError
  | S754_infinity _ => Raise OverflowError
  | S754_zero _ => Ok 0
  | S754_finite s m e =>
      Ok (cond_Zopp s
            (match e with
             | Zneg k => Z.shiftr (Zpos m) (Zpos k)
             | _ => Z.shiftl (Zpos m) e
             end))
  end.

(** The rational number a finite float stands for (0 for the others). *)
Definition value (x : float) : Q :=
  match x with
  | S754_finite s m e =>
      match e with
      | Zneg k => Qmake (cond_Zopp s (Zpos m)) (2 ^ k)%positive
      | _ => inject_Z (cond_Zopp s (Zpos m * 2 ^ e))
      end
  | _ => 0%Q
  end.

End PyFloat.

Import PyFloat.

(** Truncation toward zero of a rational, the reading of "trunc" in the
    format description. *)
Definition trunc (q : Q) : Z := Z.quot (Qnum q) (Zpos (Qden q)).

(** ** Single precision

    Blender's [mathutils.Vector] keeps its components as C [float]s: a
    Python float assigned to a component is converted to single precision
    and read back as the double of that value. *)

(** The C conversion [(float) x] of a double to single precision, rounding
    to nearest-even, read back as a double. *)
Definition to_f32 (x : float) : float :=
  match x with
  | S754_finite s m e =>
      match binary_round 24 128 s m e with
      | S754_finite s' m' e' =>
          binary_normalize prec emax (cond_Zopp s' (Zpos m')) e' s'
      | y => y
      end
  | _ => x
  end.

(** ** Vertex packers *)

(** A coordinate triple, [coord[0]], [coord[1]], [coord[2]]. *)
Definition coord : Type := (float * float * float)%type.

Definition enc_vert_unreal (c : coord) : result Z :=
  let '(c0, c1, c2) := c in
  a <- to_int (mul c0 (of_int 8)) ;;
  b <- to_int (mul c1 (of_int 8)) ;;
  d <- to_int (mul c2 (of_int 4)) ;;
  Ok (Z.lor (Z.lor (Z.land a 0x7ff)
                   (Z.shiftl (Z.land b 0x7ff) 11))
            (Z.shiftl (Z.land d 0x3ff) 22)).

Definition enc_vert_deusex (c : coord) : result Z :=
  let '(c0, c1, c2) := c in
  a <- to_int (mul c0 (of_int 256)) ;;
  b <- to_int (mul c1 (of_int 256)) ;;
  d <- to_int (mul c2 (of_int 256)) ;;
  Ok (Z.lor (Z.lor (Z.land a 0xffff)
                   (Z.shiftl (Z.land b 0xffff) 16))
            (Z.shiftl (Z.land d 0xffff) 32)).

(** ** [struct.pack]

    Only the format codes the exporter uses.  A value outside the range of
    its code raises [struct.error]; otherwise the value is laid out in
    two's complement, least significant byte first (the byte order of every
    platform Blender runs on; both the ["="] prefix and the prefix-less
    native mode use the machine's byte order). *)

Definition bytes : Type := list byte.

Definition pack_int (size : nat) (lo hi : Z) (v : Z) : result bytes :=
  if (lo <=? v) && (v <=? hi) then Ok (le_split size v) else Raise StructError.

(** The C data model of the interpreter: it fixes the width of the native
    [unsigned long], code ['L'] without a prefix. *)
Inductive data_model : Type := ILP32 | LLP64 | LP64.

Definition sizeof_long (dm : data_model) : nat :=
  match dm with
  | LP64 => 8
  | ILP32 | LLP64 => 4
  end.

(** A format code with the ["="] prefix (standard sizes). *)
Inductive std_code : Type := Std_h | Std_L | Std_Q.

Definition pack_std (c : std_code) (v : Z) : result bytes :=
  match c with
  | Std_h => pack_int 2 (-32768) 32767 v
  | Std_L => pack_int 4 0 (2 ^ 32 - 1) v
  | Std_Q => pack_int 8 0 (2 ^ 64 - 1) v
  end.

(** Native mode (no prefix), codes ['H'], ['L'], ['B'] and ['b'].  In
    ["4H7L12B"] the first ['L'] sits at offset 8 and in ["3H2b6B2b"] no
    field is wider than its offset allows, so native alignment inserts no
    padding. *)
Definition pack_H (v : Z) : result bytes := pack_int 2 0 65535 v.
Definition pack_B (v : Z) : result bytes := pack_int 1 0 255 v.
Definition pack_b (v : Z) : result bytes := pack_int 1 (-128) 127 v.
Definition pack_native_L (dm : data_model) (v : Z) : result bytes :=
  pack_int (sizeof_long dm) 0 (2 ^ (8 * Z.of_nat (sizeof_long dm)) - 1) v.

(** [calcsize(vert_data_type)]: native size of ['L'] or ['Q']. *)
Definition calcsize (dm : data_model) (c : std_code) : Z :=
  match c with
  | Std_h => 2
  | Std_L => Z.of_nat (sizeof_long dm)
  | Std_Q => 8
  end.

(** Packing a list of values with one code and concatenating. *)
Fixpoint pack_all (p : Z -> result bytes) (vs : list Z) : result bytes :=
  match vs with
  | [] => Ok []
  | v :: vs' =>
      b <- p v ;;
      bs <- pack_all p vs' ;;
      Ok (b ++ bs)
  end.

(** ** Range validator *)

Inductive axis : Type := AxisX | AxisY | AxisZ.

(** What [check_mesh] prints before it returns [False]: the vertex index,
    the axis named in the message and the vertex' coordinate vector. *)
Inductive check_report : Type :=
| InBounds
| OutOfBounds (i : nat) (a : axis) (co : coord).

Definition out_of_bounds (maxv c : float) : bool :=
  ge (neg maxv) c || le maxv c.

Fixpoint check_vertices (maxv : float) (i : nat) (vs : list coord)
  : check_report :=
  match vs with
  | [] => InBounds
  | (x, y, z) :: vs' =>
      if out_of_bounds maxv x then OutOfBounds i AxisX (x, y, z)
      else if out_of_bounds maxv y then OutOfBounds i AxisY (x, y, z)
      else if out_of_bounds maxv z then OutOfBounds i AxisZ (x, y, z)
      else check_vertices maxv (S i) vs'
  end.

Definition check_mesh_report (vertices : list coord) (scale : float)
  : result check_report :=
  maxv <- div (of_int 128) scale ;;
  Ok (check_vertices maxv 0 vertices).

(** The return value of [check_mesh]. *)
Definition check_mesh (vertices : list coord) (scale : float) : result bool :=
  r <- check_mesh_report vertices scale ;;
  Ok (match r with InBounds => true | OutOfBounds _ _ _ => false end).

(** ** Strings

    A Python [str] is its sequence of code points. *)

Definition str : Type := list Z.

(** A literal of the source, written in ASCII. *)
Fixpoint literal (s : string) : str :=
  match s with
  | EmptyString => []
  | String c s' => Z.of_nat (nat_of_ascii c) :: literal s'
  end.

(** *** The character data [str.lower] consults

    The tables are those of CPython 3.11 (Unicode 14.0).  An entry
    [(first, last, step, delta)] of [lower_runs] says that every [step]-th
    code point from [first] to [last] has the lower-case code point
    [delta] further up; a code point in no entry is its own lower case.
    The other two tables list the ranges of the code points with the
    properties Case_Ignorable and Cased. *)

Definition lower_runs : list (Z * Z * Z * Z) :=
  [(65, 90, 1, 32); (192, 214, 1, 32); (216, 222, 1, 32);
   (256, 302, 2, 1); (306, 310, 2, 1); (313, 327, 2, 1);
   (330, 374, 2, 1); (376, 376, 1, -121); (377, 381, 2, 1);
   (385, 385, 1, 210); (386, 388, 2, 1); (390, 390, 1, 206);
   (391, 391, 1, 1); (393, 394, 1, 205); (395, 395, 1, 1);
   (398, 398, 1, 79); (399, 399, 1, 202); (400, 400, 1, 203);
   (401, 401, 1, 1); (403, 403, 1, 205); (404, 404, 1, 207);
   (406, 406, 1, 211); (407, 407, 1, 209); (408, 408, 1, 1);
   (412, 412, 1, 211); (413, 413, 1, 213); (415, 415, 1, 214);
   (416, 420, 2, 1); (422, 422, 1, 218); (423, 423, 1, 1);
   (425, 425, 1, 218); (428, 428, 1, 1); (430, 430, 1, 218);
   (431, 431, 1, 1); (433, 434, 1, 217); (435, 437, 2, 1);
   (439, 439, 1, 219); (440, 440, 1, 1); (444, 444, 1, 1);
   (452, 452, 1, 2); (453, 453, 1, 1); (455, 455, 1, 2);
   (456, 456, 1, 1); (458, 458, 1, 2); (459, 475, 2, 1);
   (478, 494, 2, 1); (497, 497, 1, 2); (498, 500, 2, 1);
   (502, 502, 1, -97); (503, 503, 1, -56); (504, 542, 2, 1);
   (544, 544, 1, -130); (546, 562, 2, 1); (570, 570, 1, 10795);
   (571, 571, 1, 1); (573, 573, 1, -163); (574, 574, 1, 10792);
   (577, 577, 1, 1); (579, 579, 1, -195); (580, 580, 1, 69);
   (581, 581, 1, 71); (582, 590, 2, 1); (880, 882, 2, 1);
   (886, 886, 1, 1); (895, 895, 1, 116); (902, 902, 1, 38);
   (904, 906, 1, 37); (908, 908, 1, 64); (910, 911, 1, 63);
   (913, 929, 1, 32); (931, 939, 1, 32); (975, 975, 1, 8);
   (984, 1006, 2, 1); (1012, 1012, 1, -60); (1015, 1015, 1, 1);
   (1017, 1017, 1, -7); (1018, 1018, 1, 1); (1021, 1023, 1, -130);
   (1024, 1039, 1, 80); (1040, 1071, 1, 32); (1120, 1152, 2, 1);
   (1162, 1214, 2, 1); (1216, 1216, 1, 15); (1217, 1229, 2, 1);
   (1232, 1326, 2, 1); (1329, 1366, 1, 48); (4256, 4293, 1, 7264);
   (4295, 4295, 1, 7264); (4301, 4301, 1, 7264); (5024, 5103, 1, 38864);
   (5104, 5109, 1, 8); (7312, 7354, 1, -3008); (7357, 7359, 1, -3008);
   (7680, 7828, 2, 1); (7838, 7838, 1, -7615); (7840, 7934, 2, 1);
   (7944, 7951, 1, -8); (7960, 7965, 1, -8); (7976, 7983, 1, -8);
   (7992, 7999, 1, -8); (8008, 8013, 1, -8); (8025, 8025, 1, -8);
   (8027, 8027, 1, -8); (8029, 8029, 1, -8); (8031, 8031, 1, -8);
   (8040, 8047, 1, -8); (8072, 8079, 1, -8); (8088, 8095, 1, -8);
   (8104, 8111, 1, -8); (8120, 8121, 1, -8); (8122, 8123, 1, -74);
   (8124, 8124, 1, -9); (8136, 8139, 1, -86); (8140, 8140, 1, -9);
   (8152, 8153, 1, -8); (8154, 8155, 1, -100); (8168, 8169, 1, -8);
   (8170, 8171, 1, -112); (8172, 8172, 1, -7); (8184, 8185, 1, -128);
   (8186, 8187, 1, -126); (8188, 8188, 1, -9); (8486, 8486, 1, -7517);
   (8490, 8490, 1, -8383); (8491, 8491, 1, -8262); (8498, 8498, 1, 28);
   (8544, 8559, 1, 16); (8579, 8579, 1, 1); (9398, 9423, 1, 26);
   (11264, 11311, 1, 48); (11360, 11360, 1, 1); (11362, 11362, 1, -10743);
   (11363, 11363, 1, -3814); (11364, 11364, 1, -10727); (11367, 11371, 2, 1);
   (11373, 11373, 1, -10780); (11374, 11374, 1, -10749); (11375, 11375, 1, -10783);
   (11376, 11376, 1, -10782); (11378, 11378, 1, 1); (11381, 11381, 1, 1);
   (11390, 11391, 1, -10815); (11392, 11490, 2, 1); (11499, 11501, 2, 1);
   (11506, 11506, 1, 1); (42560, 42604, 2, 1); (42624, 42650, 2, 1);
   (42786, 42798, 2, 1); (42802, 42862, 2, 1); (42873, 42875, 2, 1);
   (42877, 42877, 1, -35332); (42878, 42886, 2, 1); (42891, 42891, 1, 1);
   (42893, 42893, 1, -42280); (42896, 42898, 2, 1); (42902, 42920, 2, 1);
   (42922, 42922, 1, -42308); (42923, 42923, 1, -42319); (42924, 42924, 1, -42315);
   (42925, 42925, 1, -42305); (42926, 42926, 1, -42308); (42928, 42928, 1, -42258);
   (42929, 42929, 1, -42282); (42930, 42930, 1, -42261); (42931, 42931, 1, 928);
   (42932, 42946, 2, 1); (42948, 42948, 1, -48); (42949, 42949, 1, -42307);
   (42950, 42950, 1, -35384); (42951, 42953, 2, 1); (42960, 42960, 1, 1);
   (42966, 42968, 2, 1); (42997, 42997, 1, 1); (65313, 65338, 1, 32);
   (66560, 66599, 1, 40); (66736, 66771, 1, 40); (66928, 66938, 1, 39);
   (66940, 66954, 1, 39); (66956, 66962, 1, 39); (66964, 66965, 1, 39);
   (68736, 68786, 1, 64); (71840, 71871, 1, 32); (93760, 93791, 1, 32);
   (125184, 125217, 1, 34)].

Definition case_ignorable_ranges : list (Z * Z) :=
  [(39, 39); (46, 46); (58, 58); (94, 94); (96, 96);
   (168, 168); (173, 173); (175, 175); (180, 180); (183, 184);
   (688, 879); (884, 885); (890, 890); (900, 901); (903, 903);
   (1155, 1161); (1369, 1369); (1375, 1375); (1425, 1469); (1471, 1471);
   (1473, 1474); (1476, 1477); (1479, 1479); (1524, 1524); (1536, 1541);
   (1552, 1562); (1564, 1564); (1600, 1600); (1611, 1631); (1648, 1648);
   (1750, 1757); (1759, 1768); (1770, 1773); (1807, 1807); (1809, 1809);
   (1840, 1866); (1958, 1968); (2027, 2037); (2042, 2042); (2045, 2045);
   (2070, 2093); (2137, 2139); (2184, 2184); (2192, 2193); (2200, 2207);
   (2249, 2306); (2362, 2362); (2364, 2364); (2369, 2376); (2381, 2381);
   (2385, 2391); (2402, 2403); (2417, 2417); (2433, 2433); (2492, 2492);
   (2497, 2500); (2509, 2509); (2530, 2531); (2558, 2558); (2561, 2562);
   (2620, 2620); (2625, 2626); (2631, 2632); (2635, 2637); (2641, 2641);
   (2672, 2673); (2677, 2677); (2689, 2690); (2748, 2748); (2753, 2757);
   (2759, 2760); (2765, 2765); (2786, 2787); (2810, 2815); (2817, 2817);
   (2876, 2876); (2879, 2879); (2881, 2884); (2893, 2893); (2901, 2902);
   (2914, 2915); (2946, 2946); (3008, 3008); (3021, 3021); (3072, 3072);
   (3076, 3076); (3132, 3132); (3134, 3136); (3142, 3144); (3146, 3149);
   (3157, 3158); (3170, 3171); (3201, 3201); (3260, 3260); (3263, 3263);
   (3270, 3270); (3276, 3277); (3298, 3299); (3328, 3329); (3387, 3388);
   (3393, 3396); (3405, 3405); (3426, 3427); (3457, 3457); (3530, 3530);
   (3538, 3540); (3542, 3542); (3633, 3633); (3636, 3642); (3654, 3662);
   (3761, 3761); (3764, 3772); (3782, 3782); (3784, 3789); (3864, 3865);
   (3893, 3893); (3895, 3895); (3897, 3897); (3953, 3966); (3968, 3972);
   (3974, 3975); (3981, 3991); (3993, 4028); (4038, 4038); (4141, 4144);
   (4146, 4151); (4153, 4154); (4157, 4158); (4184, 4185); (4190, 4192);
   (4209, 4212); (4226, 4226); (4229, 4230); (4237, 4237); (4253, 4253);
   (4348, 4348); (4957, 4959); (5906, 5908); (5938, 5939); (5970, 5971);
   (6002, 6003); (6068, 6069); (6071, 6077); (6086, 6086); (6089, 6099);
   (6103, 6103); (6109, 6109); (6155, 6159); (6211, 6211); (6277, 6278);
   (6313, 6313); (6432, 6434); (6439, 6440); (6450, 6450); (6457, 6459);
   (6679, 6680); (6683, 6683); (6742, 6742); (6744, 6750); (6752, 6752);
   (6754, 6754); (6757, 6764); (6771, 6780); (6783, 6783); (6823, 6823);
   (6832, 6862); (6912, 6915); (6964, 6964); (6966, 6970); (6972, 6972);
   (6978, 6978); (7019, 7027); (7040, 7041); (7074, 7077); (7080, 7081);
   (7083, 7085); (7142, 7142); (7144, 7145); (7149, 7149); (7151, 7153);
   (7212, 7219); (7222, 7223); (7288, 7293); (7376, 7378); (7380, 7392);
   (7394, 7400); (7405, 7405); (7412, 7412); (7416, 7417); (7468, 7530);
   (7544, 7544); (7579, 7679); (8125, 8125); (8127, 8129); (8141, 8143);
   (8157, 8159); (8173, 8175); (8189, 8190); (8203, 8207); (8216, 8217);
   (8228, 8228); (8231, 8231); (8234, 8238); (8288, 8292); (8294, 8303);
   (8305, 8305); (8319, 8319); (8336, 8348); (8400, 8432); (11388, 11389);
   (11503, 11505); (11631, 11631); (11647, 11647); (11744, 11775); (11823, 11823);
   (12293, 12293); (12330, 12333); (12337, 12341); (12347, 12347); (12441, 12446);
   (12540, 12542); (40981, 40981); (42232, 42237); (42508, 42508); (42607, 42610);
   (42612, 42621); (42623, 42623); (42652, 42655); (42736, 42737); (42752, 42785);
   (42864, 42864); (42888, 42890); (42994, 42996); (43000, 43001); (43010, 43010);
   (43014, 43014); (43019, 43019); (43045, 43046); (43052, 43052); (43204, 43205);
   (43232, 43249); (43263, 43263); (43302, 43309); (43335, 43345); (43392, 43394);
   (43443, 43443); (43446, 43449); (43452, 43453); (43471, 43471); (43493, 43494);
   (43561, 43566); (43569, 43570); (43573, 43574); (43587, 43587); (43596, 43596);
   (43632, 43632); (43644, 43644); (43696, 43696); (43698, 43700); (43703, 43704);
   (43710, 43711); (43713, 43713); (43741, 43741); (43756, 43757); (43763, 43764);
   (43766, 43766); (43867, 43871); (43881, 43883); (44005, 44005); (44008, 44008);
   (44013, 44013); (64286, 64286); (64434, 64450); (65024, 65039); (65043, 65043);
   (65056, 65071); (65106, 65106); (65109, 65109); (65279, 65279); (65287, 65287);
   (65294, 65294); (65306, 65306); (65342, 65342); (65344, 65344); (65392, 65392);
   (65438, 65439); (65507, 65507); (65529, 65531); (66045, 66045); (66272, 66272);
   (66422, 66426); (67456, 67461); (67463, 67504); (67506, 67514); (68097, 68099);
   (68101, 68102); (68108, 68111); (68152, 68154); (68159, 68159); (68325, 68326);
   (68900, 68903); (69291, 69292); (69446, 69456); (69506, 69509); (69633, 69633);
   (69688, 69702); (69744, 69744); (69747, 69748); (69759, 69761); (69811, 69814);
   (69817, 69818); (69821, 69821); (69826, 69826); (69837, 69837); (69888, 69890);
   (69927, 69931); (69933, 69940); (70003, 70003); (70016, 70017); (70070, 70078);
   (70089, 70092); (70095, 70095); (70191, 70193); (70196, 70196); (70198, 70199);
   (70206, 70206); (70367, 70367); (70371, 70378); (70400, 70401); (70459, 70460);
   (70464, 70464); (70502, 70508); (70512, 70516); (70712, 70719); (70722, 70724);
   (70726, 70726); (70750, 70750); (70835, 70840); (70842, 70842); (70847, 70848);
   (70850, 70851); (71090, 71093); (71100, 71101); (71103, 71104); (71132, 71133);
   (71219, 71226); (71229, 71229); (71231, 71232); (71339, 71339); (71341, 71341);
   (71344, 71349); (71351, 71351); (71453, 71455); (71458, 71461); (71463, 71467);
   (71727, 71735); (71737, 71738); (71995, 71996); (71998, 71998); (72003, 72003);
   (72148, 72151); (72154, 72155); (72160, 72160); (72193, 72202); (72243, 72248);
   (72251, 72254); (72263, 72263); (72273, 72278); (72281, 72283); (72330, 72342);
   (72344, 72345); (72752, 72758); (72760, 72765); (72767, 72767); (72850, 72871);
   (72874, 72880); (72882, 72883); (72885, 72886); (73009, 73014); (73018, 73018);
   (73020, 73021); (73023, 73029); (73031, 73031); (73104, 73105); (73109, 73109);
   (73111, 73111); (73459, 73460); (78896, 78904); (92912, 92916); (92976, 92982);
   (92992, 92995); (94031, 94031); (94095, 94111); (94176, 94177); (94179, 94180);
   (110576, 110579); (110581, 110587); (110589, 110590); (113821, 113822); (113824, 113827);
   (118528, 118573); (118576, 118598); (119143, 119145); (119155, 119170); (119173, 119179);
   (119210, 119213); (119362, 119364); (121344, 121398); (121403, 121452); (121461, 121461);
   (121476, 121476); (121499, 121503); (121505, 121519); (122880, 122886); (122888, 122904);
   (122907, 122913); (122915, 122916); (122918, 122922); (123184, 123197); (123566, 123566);
   (123628, 123631); (125136, 125142); (125252, 125259); (127995, 127999); (917505, 917505);
   (917536, 917631); (917760, 917999)].

Definition cased_ranges : list (Z * Z) :=
  [(65, 90); (97, 122); (170, 170); (181, 181); (186, 186);
   (192, 214); (216, 246); (248, 442); (444, 447); (452, 659);
   (661, 696); (704, 705); (736, 740); (837, 837); (880, 883);
   (886, 887); (890, 893); (895, 895); (902, 902); (904, 906);
   (908, 908); (910, 929); (931, 1013); (1015, 1153); (1162, 1327);
   (1329, 1366); (1376, 1416); (4256, 4293); (4295, 4295); (4301, 4301);
   (4304, 4346); (4349, 4351); (5024, 5109); (5112, 5117); (7296, 7304);
   (7312, 7354); (7357, 7359); (7424, 7615); (7680, 7957); (7960, 7965);
   (7968, 8005); (8008, 8013); (8016, 8023); (8025, 8025); (8027, 8027);
   (8029, 8029); (8031, 8061); (8064, 8116); (8118, 8124); (8126, 8126);
   (8130, 8132); (8134, 8140); (8144, 8147); (8150, 8155); (8160, 8172);
   (8178, 8180); (8182, 8188); (8305, 8305); (8319, 8319); (8336, 8348);
   (8450, 8450); (8455, 8455); (8458, 8467); (8469, 8469); (8473, 8477);
   (8484, 8484); (8486, 8486); (8488, 8488); (8490, 8493); (8495, 8500);
   (8505, 8505); (8508, 8511); (8517, 8521); (8526, 8526); (8544, 8575);
   (8579, 8580); (9398, 9449); (11264, 11492); (11499, 11502); (11506, 11507);
   (11520, 11557); (11559, 11559); (11565, 11565); (42560, 42605); (42624, 42653);
   (42786, 42887); (42891, 42894); (42896, 42954); (42960, 42961); (42963, 42963);
   (42965, 42969); (42997, 42998); (43000, 43002); (43824, 43866); (43868, 43880);
   (43888, 43967); (64256, 64262); (64275, 64279); (65313, 65338); (65345, 65370);
   (66560, 66639); (66736, 66771); (66776, 66811); (66928, 66938); (66940, 66954);
   (66956, 66962); (66964, 66965); (66967, 66977); (66979, 66993); (66995, 67001);
   (67003, 67004); (67456, 67456); (67459, 67461); (67463, 67504); (67506, 67514);
   (68736, 68786); (68800, 68850); (71840, 71903); (93760, 93823); (119808, 119892);
   (119894, 119964); (119966, 119967); (119970, 119970); (119973, 119974); (119977, 119980);
   (119982, 119993); (119995, 119995); (119997, 120003); (120005, 120069); (120071, 120074);
   (120077, 120084); (120086, 120092); (120094, 120121); (120123, 120126); (120128, 120132);
   (120134, 120134); (120138, 120144); (120146, 120485); (120488, 120512); (120514, 120538);
   (120540, 120570); (120572, 120596); (120598, 120628); (120630, 120654); (120656, 120686);
   (120688, 120712); (120714, 120744); (120746, 120770); (120772, 120779); (122624, 122633);
   (122635, 122654); (125184, 125251); (127280, 127305); (127312, 127337); (127344, 127369)].

Definition in_ranges (c : Z) (ranges : list (Z * Z)) : bool :=
  existsb (fun r => (fst r <=? c) && (c <=? snd r)) ranges.

Definition is_case_ignorable (c : Z) : bool :=
  in_ranges c case_ignorable_ranges.

Definition is_cased (c : Z) : bool := in_ranges c cased_ranges.

Definition in_run (c : Z) (r : Z * Z * Z * Z) : bool :=
  let '(first, last, step, _) := r in
  (first <=? c) && (c <=? last) && ((c - first) mod step =? 0).

(** The full lower-case mapping of one code point; U+0130 is the only one
    that lowers to more than one code point. *)
Definition to_lower_full (c : Z) : str :=
  if c =? 0x130 then [0x69; 0x307]
  else match find (in_run c) lower_runs with
       | Some (_, _, _, delta) => [c + delta]
       | None => [c]
       end.

(** The first code point of [s] that is not case-ignorable. *)
Fixpoint skip_case_ignorable (s : str) : option Z :=
  match s with
  | [] => None
  | c :: s' => if is_case_ignorable c then skip_case_ignorable s' else Some c
  end.

(** The lower case of a capital sigma: the final form when a cased letter
    comes before it and none after it, case-ignorable code points apart.
    [before] holds the preceding code points, the nearest first. *)
Definition handle_capital_sigma (before after : str) : Z :=
  let final_sigma :=
    match skip_case_ignorable before with
    | Some c => is_cased c
    | None => false
    end in
  let final_sigma :=
    if final_sigma then
      match skip_case_ignorable after with
      | Some c => negb (is_cased c)
      | None => true
      end
    else false in
  if final_sigma then 0x3C2 else 0x3C3.

Definition lower_ucs4 (before after : str) (c : Z) : str :=
  if c =? 0x3A3 then [handle_capital_sigma before after]
  else to_lower_full c.

Fixpoint lower_from (before : str) (s : str) : str :=
  match s with
  | [] => []
  | c :: s' => lower_ucs4 before s' c ++ lower_from (c :: before) s'
  end.

(** [s.lower()]. *)
Definition lower (s : str) : str := lower_from [] s.

Fixpoint prefix (p s : str) : bool :=
  match p, s with
  | [], _ => true
  | a :: p', b :: s' => (a =? b) && prefix p' s'
  | _ :: _, [] => false
  end.

(** [needle in hay]. *)
Fixpoint str_in (needle hay : str) : bool :=
  if prefix needle hay then true
  else match hay with
       | [] => false
       | _ :: hay' => str_in needle hay'
       end.

(** ** Blender data the exporter reads *)

(** A face corner: the index of its vertex and the UV pair of the first UV
    layer (read only when the mesh has a UV layer).  The layer holds a UV
    pair in single precision. *)
Record BMLoop : Type := {
  loop_vert_index : Z;
  loop_uv : float * float
}.

(** A face of the snapshot.  [get_bmesh_snapshot] triangulates every face
    ([bmesh.ops.triangulate] over [bm.faces[:]]) before anything reads the
    mesh, so a face has three corners. *)
Record BMFace : Type := {
  face_corners : BMLoop * BMLoop * BMLoop;
  material_index : Z
}.

(** [poly.loops] (and, corner by corner, [poly.verts]). *)
Definition face_loops (poly : BMFace) : list BMLoop :=
  let '(a, b, c) := face_corners poly in [a; b; c].

Record BMesh : Type := {
  bm_verts : list coord;
  bm_faces : list BMFace;
  bm_uv_layers : nat
}.

(** The selected object: its type, the vertices of its base mesh
    ([mesh_obj.data.vertices]), the names in its material slots and, for
    every scene frame, the triangulated mesh that the first lines of
    [get_bmesh_snapshot] build: the dependency graph evaluated,
    [bm.from_mesh], [bmesh.ops.triangulate]. *)
Record MeshObject : Type := {
  obj_is_mesh : bool;
  data_vertices : list coord;
  material_slots : list str;
  evaluated : Z -> BMesh
}.

(** [bmesh.ops.reverse_faces], Blender's: the winding of every face is
    reversed, the first corner staying first. *)
Definition reverse_faces (fs : list BMFace) : list BMFace :=
  map (fun f => let '(a, b, c) := face_corners f in
                {| face_corners := (a, c, b);
                   material_index := material_index f |}) fs.

(** [v.co.x *= -1] and its siblings: the product is assigned to a
    component of the vertex' coordinate vector. *)
Definition flip_verts (fx fy fz : bool) (v : coord) : coord :=
  let '(x, y, z) := v in
  ((if fx then to_f32 (mul x (of_int (-1))) else x),
   (if fy then to_f32 (mul y (of_int (-1))) else y),
   (if fz then to_f32 (mul z (of_int (-1))) else z)).

Definition flip_faces (b : bool) (fs : list BMFace) : list BMFace :=
  if b then reverse_faces fs else fs.

(** [get_bmesh_snapshot] at scene frame [frame]: [bm] is the triangulated
    mesh of the object at that frame; each flip negates one coordinate of
    every vertex and reverses every face. *)
Definition get_bmesh_snapshot (meshobj_org : MeshObject) (frame : Z)
    (flip_x flip_y flip_z : bool) : BMesh :=
  let bm := evaluated meshobj_org frame in
  {| bm_verts := map (flip_verts flip_x flip_y flip_z) (bm_verts bm);
     bm_faces := flip_faces flip_z (flip_faces flip_y
                   (flip_faces flip_x (bm_faces bm)));
     bm_uv_layers := bm_uv_layers bm |}.

(** ** Mesh type from the material name *)

(** [material_slots[mat_idx].name] for an index already known to be in
    range. *)
Definition slot_name (slots : list str) (mat_idx : Z) : str :=
  nth (Z.to_nat mat_idx) slots [].

Definition get_jmesh_type (slots : list str) (mat_idx : Z) : Z :=
  if (mat_idx <? 0) || (Z.of_nat (List.length slots) <=? mat_idx) then 0
  else
    let mat_name := lower (slot_name slots mat_idx) in
    if str_in (literal "(skin)") mat_name then 0
    else if str_in (literal "(twosidednorm)") mat_name then 1
    else if str_in (literal "(translucent)") mat_name then 2
    else if str_in (literal "(twosided)") mat_name then 3
    else if str_in (literal "(weapon)") mat_name then 8
    else if str_in (literal "(unlit)") mat_name then 16
    else if str_in (literal "(flat)") mat_name then 32
    else if str_in (literal "(envmapped)") mat_name then 64
    else 0.

(** ** UV bytes *)

(** C's [fmod(x, 1.0)]: the fractional part of [x] with the sign of [x],
    computed without rounding error. *)
Definition fmod1 (x : float) : float :=
  match x with
  | S754_nan | S754_infinity _ => S754_nan
  | S754_zero s => S754_zero s
  | S754_finite s m e =>
      match e with
      | Zneg k =>
          binary_normalize prec emax
            (cond_Zopp s (Z.land (Zpos m) (Z.ones (Zpos k)))) e s
      | _ => S754_zero s
      end
  end.

(** [x % 1] on a float (CPython's [float_rem] with divisor [1.0]): a
    non-zero remainder of the wrong sign gets the divisor added, in
    floating point; a zero remainder becomes [+0.0]. *)
Definition mod1 (x : float) : float :=
  let m := fmod1 x in
  match m with
  | S754_zero _ => S754_zero false
  | S754_finite true _ _ => add m (of_int 1)
  | _ => m
  end.

(** The object bound to [uv]: the tuple [(0, 0)] when the mesh has no UV
    layer, else the loop's UV vector, a [mathutils.Vector]. *)
Inductive uv_object : Type :=
| UvTuple (u v : float)
| UvVector (u v : float).

Definition uv_get (i : nat) (uv : uv_object) : float :=
  match uv, i with
  | UvTuple u _, O | UvVector u _, O => u
  | UvTuple _ v, _ | UvVector _ v, _ => v
  end.

(** [uv[i] = x]: a tuple does not support item assignment; a vector
    stores [x] in single precision. *)
Definition uv_set (i : nat) (x : float) (uv : uv_object) : result uv_object :=
  match uv, i with
  | UvTuple _ _, _ => Raise TypeError
  | UvVector _ v, O => Ok (UvVector (to_f32 x) v)
  | UvVector u _, _ => Ok (UvVector u (to_f32 x))
  end.

(** The body of [for loop in poly.loops]: the two bytes appended to
    [uvs]. *)
Definition loop_uv_bytes (uv_chan_count : nat) (flip_uv_u flip_uv_v : bool)
    (loop : BMLoop) : result (list Z) :=
  let uv := if (0 <? uv_chan_count)%nat
            then UvVector (to_f32 (fst (loop_uv loop)))
                          (to_f32 (snd (loop_uv loop)))
            else UvTuple (of_int 0) (of_int 0) in
  uv <- uv_set 0 (mod1 (uv_get 0 uv)) uv ;;
  uv <- uv_set 1 (mod1 (uv_get 1 uv)) uv ;;
  uv <- (if flip_uv_u then uv_set 0 (sub (of_int 1) (uv_get 0 uv)) uv
         else Ok uv) ;;
  uv <- (if flip_uv_v then uv_set 1 (sub (of_int 1) (uv_get 1 uv)) uv
         else Ok uv) ;;
  uv <- uv_set 0 (mul (uv_get 0 uv) (of_int 255)) uv ;;
  uv <- uv_set 1 (mul (uv_get 1 uv) (of_int 255)) uv ;;
  a <- to_int (uv_get 0 uv) ;;
  b <- to_int (uv_get 1 uv) ;;
  Ok [a; b].

Fixpoint face_uvs (uv_chan_count : nat) (flip_uv_u flip_uv_v : bool)
    (loops : list BMLoop) : result (list Z) :=
  match loops with
  | [] => Ok []
  | l :: loops' =>
      ab <- loop_uv_bytes uv_chan_count flip_uv_u flip_uv_v l ;;
      rest <- face_uvs uv_chan_count flip_uv_u flip_uv_v loops' ;;
      Ok (ab ++ rest)
  end.

(** ** Data file: header and face records *)

(** [pack("4H7L12B", len(faces), len(verts), *([0] * 21))]. *)
Definition data_header (dm : data_model) (bm : BMesh) : result bytes :=
  h <- pack_all pack_H [Z.of_nat (List.length (bm_faces bm));
                        Z.of_nat (List.length (bm_verts bm)); 0; 0] ;;
  l <- pack_all (pack_native_L dm) (repeat 0 7) ;;
  b <- pack_all pack_B (repeat 0 12) ;;
  Ok (h ++ l ++ b).

(** [pack("3H2b6B2b", *face_vert_indices, face_type, face_color,
    *face_uvs, face_mat_idx, face_flags)]; a wrong number of arguments is
    a [struct.error]. *)
Definition pack_face (face_vert_indices : list Z) (face_type face_color : Z)
    (uvs : list Z) (face_mat_idx face_flags : Z) : result bytes :=
  if ((List.length face_vert_indices =? 3)%nat && (List.length uvs =? 6)%nat)%bool then
    i <- pack_all pack_H face_vert_indices ;;
    t <- pack_all pack_b [face_type; face_color] ;;
    u <- pack_all pack_B uvs ;;
    m <- pack_all pack_b [face_mat_idx; face_flags] ;;
    Ok (i ++ t ++ u ++ m)
  else Raise StructError.

(** The part of the loop body after the triangle test. *)
Definition face_record (slots : list str) (uv_chan_count : nat)
    (flip_uv_u flip_uv_v : bool) (poly : BMFace) : result bytes :=
  uvs <- face_uvs uv_chan_count flip_uv_u flip_uv_v (face_loops poly) ;;
  let face_vert_indices := map loop_vert_index (face_loops poly) in
  let face_type := get_jmesh_type slots (material_index poly) in
  let face_color := 0 in
  let face_mat_idx := material_index poly + 1 in
  let face_flags := 0 in
  pack_face face_vert_indices face_type face_color uvs face_mat_idx face_flags.

(** ** The export operator *)

Inductive export_format : Type := UNREAL1 | DEUSEX.

(** The operator's properties that the encoders read. *)
Record Properties : Type := {
  p_scale : float;
  p_flip_model_x : bool;
  p_flip_model_y : bool;
  p_flip_model_z : bool;
  p_flip_uv_u : bool;
  p_flip_uv_v : bool;
  p_export_format_type : export_format
}.

Record Scene : Type := {
  frame_current : Z;
  frame_start : Z;
  frame_end : Z
}.

(** The error handed to [self.report] before [return {'CANCELLED'}]. *)
Inductive report : Type :=
| InvalidFrameRange
| NoValidMeshObject
| CoordinateOutOfBounds
| OnlyTriangles.

(** How a block of statements can stop early. *)
Inductive stop : Type :=
| Cancelled (r : report)
| Raised (e : exn).

(** Statements that write to one open file: the bytes written so far and
    either a value or the reason for stopping.  What was written before a
    [return] or an exception stays in the file (the [with] block closes
    it). *)
Definition out (A : Type) : Type := (bytes * (A + stop))%type.

Definition ret {A : Type} (a : A) : out A := ([], inl a).

Definition emit (bs : bytes) : out unit := (bs, inl tt).

Definition cancel {A : Type} (r : report) : out A := ([], inr (Cancelled r)).

Definition try {A : Type} (r : result A) : out A :=
  match r with
  | Ok a => ([], inl a)
  | Raise e => ([], inr (Raised e))
  end.

Definition obind {A B : Type} (m : out A) (k : A -> out B) : out B :=
  match m with
  | (b1, inl a) => let '(b2, r) := k a in (b1 ++ b2, r)
  | (b1, inr s) => (b1, inr s)
  end.

Notation "x <~ m ;; k" := (obind m (fun x => k))
  (at level 61, m at next level, right associativity).
Notation "m ;;; k" := (obind m (fun _ => k))
  (at level 61, right associativity).

Fixpoint for_each {A : Type} (body : A -> out unit) (l : list A) : out unit :=
  match l with
  | [] => ret tt
  | a :: l' => body a ;;; for_each body l'
  end.

(** *** Animation file *)

Definition vert_data_type (fmt : export_format) : std_code :=
  match fmt with
  | DEUSEX => Std_Q
  | UNREAL1 => Std_L
  end.

Definition enc_vert (fmt : export_format) (c : coord) : result Z :=
  match fmt with
  | DEUSEX => enc_vert_deusex c
  | UNREAL1 => enc_vert_unreal c
  end.

Definition scale_coord (mesh_scale : float) (co : coord) : coord :=
  let '(x, y, z) := co in
  (mul x mesh_scale, mul y mesh_scale, mul z mesh_scale).

(** The body of [for i, v in enumerate(to_exp_bmesh_snap_f.verts)]. *)
Definition write_vertex (props : Properties) (co : coord) : out unit :=
  let vert_coord := scale_coord (p_scale props) co in
  vert_coord_encoded <~ try (enc_vert (p_export_format_type props) vert_coord) ;;
  b <~ try (pack_std (vert_data_type (p_export_format_type props))
                     vert_coord_encoded) ;;
  emit b.

(** The body of [while get_frame() <= frame_exp_end], at scene frame [f]. *)
Definition write_frame (props : Properties) (mesh_obj : MeshObject) (f : Z)
  : out unit :=
  let to_exp_bmesh_snap_f :=
    get_bmesh_snapshot mesh_obj f (p_flip_model_x props)
      (p_flip_model_y props) (p_flip_model_z props) in
  for_each (write_vertex props) (bm_verts to_exp_bmesh_snap_f).

(** The frames the loop visits: [frame_exp_start], advancing by one up to
    [frame_exp_end]. *)
Definition frame_range (scene : Scene) : list Z :=
  map (fun i => frame_start scene + Z.of_nat i)
      (seq 0 (Z.to_nat (frame_end scene - frame_start scene + 1))).

Definition aniv_header (dm : data_model) (props : Properties)
    (scene : Scene) (mesh_obj : MeshObject) : out unit :=
  let frames_exp_count := frame_end scene - frame_start scene + 1 in
  h1 <~ try (pack_std Std_h frames_exp_count) ;;
  emit h1 ;;;
  h2 <~ try (pack_std Std_h
               (Z.of_nat (List.length (data_vertices mesh_obj))
                * calcsize dm (vert_data_type (p_export_format_type props)))) ;;
  emit h2.

Definition write_aniv_file (dm : data_model) (props : Properties)
    (scene : Scene) (mesh_obj : MeshObject) : out unit :=
  aniv_header dm props scene mesh_obj ;;;
  for_each (write_frame props mesh_obj) (frame_range scene).

(** *** Data file *)

(** The body of [for i, poly in enumerate(to_exp_bmesh_snap.faces)]. *)
Definition write_face (props : Properties) (mesh_obj : MeshObject)
    (uv_chan_count : nat) (poly : BMFace) : out unit :=
  if negb (List.length (face_loops poly) =? 3)%nat then cancel OnlyTriangles
  else
    r <~ try (face_record (material_slots mesh_obj) uv_chan_count
                (p_flip_uv_u props) (p_flip_uv_v props) poly) ;;
    emit r.

(** The snapshot is taken after the scene went back to the frame it was
    on when the operator started. *)
Definition write_data_file (dm : data_model) (props : Properties)
    (scene : Scene) (mesh_obj : MeshObject) : out unit :=
  let to_exp_bmesh_snap :=
    get_bmesh_snapshot mesh_obj (frame_current scene) (p_flip_model_x props)
      (p_flip_model_y props) (p_flip_model_z props) in
  h <~ try (data_header dm to_exp_bmesh_snap) ;;
  emit h ;;;
  for_each (write_face props mesh_obj (bm_uv_layers to_exp_bmesh_snap))
           (bm_faces to_exp_bmesh_snap).

(** *** [execute] *)

(** The files of the package directory after the operator ran: whether
    the log and the class script exist (their text is not modelled) and
    the contents of the two binary files. *)
Record files : Type := {
  log_txt : bool;
  aniv_3d : option bytes;
  data_3d : option bytes;
  class_uc : bool
}.

Definition no_files : files :=
  {| log_txt := false; aniv_3d := None; data_3d := None; class_uc := false |}.

Inductive status : Type :=
| FINISHED
| CANCELLED (r : report)
| EXCEPTION (e : exn).

Definition status_of_stop (s : stop) : status :=
  match s with
  | Cancelled r => CANCELLED r
  | Raised e => EXCEPTION e
  end.

Definition execute (dm : data_model) (props : Properties) (scene : Scene)
    (context_object : option MeshObject) : status * files :=
  let frames_exp_count := frame_end scene - frame_start scene + 1 in
  if 0 >=? frames_exp_count then (CANCELLED InvalidFrameRange, no_files)
  else
    match context_object with
    | None => (CANCELLED NoValidMeshObject, no_files)
    | Some mesh_obj =>
        if negb (obj_is_mesh mesh_obj)
        then (CANCELLED NoValidMeshObject, no_files)
        else
          match check_mesh (data_vertices mesh_obj) (p_scale props) with
          | Raise e => (EXCEPTION e, no_files)
          | Ok false => (CANCELLED CoordinateOutOfBounds, no_files)
          | Ok true =>
              let '(aniv, r) := write_aniv_file dm props scene mesh_obj in
              match r with
              | inr s =>
                  (status_of_stop s,
                   {| log_txt := true; aniv_3d := Some aniv;
                      data_3d := None; class_uc := false |})
              | inl _ =>
                  let '(data, r) := write_data_file dm props scene mesh_obj in
                  match r with
                  | inr s =>
                      (status_of_stop s,
                       {| log_txt := true; aniv_3d := Some aniv;
                          data_3d := Some data; class_uc := false |})
                  | inl _ =>
                      (FINISHED,
                       {| log_txt := true; aniv_3d := Some aniv;
                          data_3d := Some data; class_uc := true |})
                  end
              end
          end
    end.

(** * Notions used by the statements *)

(** The marker table of the format, in priority order. *)
Definition jmesh_markers : list (str * Z) :=
  [(literal "(skin)", 0); (literal "(twosidednorm)", 1);
   (literal "(translucent)", 2); (literal "(twosided)", 3);
   (literal "(weapon)", 8); (literal "(unlit)", 16);
   (literal "(flat)", 32); (literal "(envmapped)", 64)].

(** [marker] occurs in [name] up to the case of letters: some substring
    of [name] has the lower case of [marker]. *)
Definition occurs_ci (marker name : str) : Prop :=
  exists pre mid suf : str,
    name = pre ++ mid ++ suf /\ lower mid = lower marker.

(** An ordered scan of a marker table over a lower-cased name. *)
Fixpoint scan_markers (table : list (str * Z)) (lname : str) : Z :=
  match table with
  | [] => 0
  | (marker, v) :: table' =>
      if str_in marker lname then v else scan_markers table' lname
  end.

(** The code points whose lower case is one ASCII code point: the ASCII
    range and the Kelvin sign U+212A. *)
Definition lowers_to_ascii (c : Z) : bool := (c <? 128) || (c =? 0x212A).

Definition ascii_lower (c : Z) : Z :=
  if c =? 0x212A then 107
  else if (65 <=? c) && (c <=? 90) then c + 32 else c.

(** What the proofs need of a marker: it is not empty, written in ASCII,
    in lower case, and does not end in the letter i. *)
Definition marker_ok (m : str) : Prop :=
  m <> [] /\ Forall (fun a => a < 128) m /\ last m 0 <> 105 /\ lower m = m.

(** The conditions under which [execute] opens the first file. *)
Definition reaches_files (props : Properties) (scene : Scene)
    (mesh_obj : MeshObject) : Prop :=
  0 < frame_end scene - frame_start scene + 1 /\
  obj_is_mesh mesh_obj = true /\
  check_mesh (data_vertices mesh_obj) (p_scale props) = Ok true.

(** Bytes per packed vertex in the animation file body. *)
Definition packed_width (fmt : export_format) : Z :=
  match fmt with
  | UNREAL1 => 4
  | DEUSEX => 8
  end.

(** The snapshot the animation loop encodes at scene frame [f]. *)
Definition frame_snapshot (props : Properties) (mesh_obj : MeshObject)
    (f : Z) : BMesh :=
  get_bmesh_snapshot mesh_obj f (p_flip_model_x props)
    (p_flip_model_y props) (p_flip_model_z props).

(** The bytes of one packed vertex and of one frame, as the format lays
    them out (a vertex that cannot be packed contributes nothing). *)
Definition vertex_bytes (props : Properties) (co : coord) : bytes :=
  match enc_vert (p_export_format_type props)
          (scale_coord (p_scale props) co) with
  | Ok v => le_split (Z.to_nat (packed_width (p_export_format_type props))) v
  | Raise _ => []
  end.

Definition frame_bytes (props : Properties) (mesh_obj : MeshObject) (f : Z)
  : bytes :=
  List.concat (map (vertex_bytes props)
                   (bm_verts (frame_snapshot props mesh_obj f))).

(** Every vertex of every exported frame can be packed. *)
Definition all_vertices_pack (props : Properties) (scene : Scene)
    (mesh_obj : MeshObject) : Prop :=
  forall f co,
    In f (frame_range scene) ->
    In co (bm_verts (frame_snapshot props mesh_obj f)) ->
    is_ok (enc_vert (p_export_format_type props)
             (scale_coord (p_scale props) co)) = true.

(** A float that is zero or finite with magnitude at most [N], written
    on its mantissa and (non-positive) exponent. *)
Definition mag_below (N : Z) (x : float) : Prop :=
  match x with
  | S754_zero _ => True
  | S754_finite _ m e => e <= 0 /\ Zpos m <= N * 2 ^ (- e)
  | _ => False
  end.

(** A zero or a positive finite float. *)
Definition nonneg (x : float) : Prop :=
  match x with
  | S754_zero _ | S754_finite false _ _ => True
  | _ => False
  end.

(** What the loop body does to one UV component [c] under flip flag
    [flip]: wrap, flip, scale, convert; the vector keeps the result of
    every step in single precision. *)
Definition uv_wrap (c : float) : float := to_f32 (mod1 (to_f32 c)).

Definition uv_wrap_flip (flip : bool) (c : float) : float :=
  if flip then to_f32 (sub (of_int 1) (uv_wrap c)) else uv_wrap c.

Definition uv_scaled (flip : bool) (c : float) : float :=
  to_f32 (mul (uv_wrap_flip flip c) (of_int 255)).

Definition uv_component_byte (flip : bool) (c : float) : result Z :=
  to_int (uv_scaled flip c).

(** The float [2^1000]. *)
Definition two_pow_1000 : float := S754_finite false (2 ^ 52) 948.

(** [|c| < maxv], the test of the range validator's contract. *)
Definition within_range (maxv c : float) : bool := lt (SFabs c) maxv.

(** A component passes the validator's contract, or is not a number. *)
Definition nan_or_within (maxv c : float) : Prop :=
  is_nan c = true \/ within_range maxv c = true.

Definition component (a : axis) (co : coord) : float :=
  let '(x, y, z) := co in
  match a with
  | AxisX => x
  | AxisY => y
  | AxisZ => z
  end.

(** The order in which the axes of one vertex are tested. *)
Definition axis_before (a b : axis) : Prop :=
  match a, b with
  | AxisX, AxisY | AxisX, AxisZ | AxisY, AxisZ => True
  | _, _ => False
  end.

Definition vertex_passes (maxv : float) (co : coord) : Prop :=
  forall a, nan_or_within maxv (component a co).



(** * Properties *)

(** ** Strings *)

Lemma prefix_app_iff (p s : str) :
  prefix p s = true <-> exists suf, s = p ++ suf.
Proof.
  revert s; induction p as [|a p IH]; intros s; cbn [prefix].
  - split; [intros _; exists s; reflexivity | reflexivity].
  - destruct s as [|b s].
    + split; [discriminate | intros [suf H]; discriminate].
    + rewrite andb_true_iff, IH, Z.eqb_eq. split.
      * intros [-> [suf ->]]. exists suf. reflexivity.
      * intros [suf H]. injection H as -> ->. split; [reflexivity|].
        exists suf. reflexivity.
Qed.

Lemma str_in_eq (needle hay : str) :
  str_in needle hay =
  if prefix needle hay then true
  else match hay with
       | [] => false
       | _ :: hay' => str_in needle hay'
       end.
Proof. destruct hay; reflexivity. Qed.

(** [str_in] decides the substring relation. *)
Lemma str_in_iff (needle hay : str) :
  str_in needle hay = true <-> exists pre suf, hay = pre ++ needle ++ suf.
Proof.
  induction hay as [|c hay IH]; rewrite str_in_eq.
  - destruct (prefix needle []) eqn:E.
    + split; [intros _|reflexivity].
      apply prefix_app_iff in E as [suf E]. exists [], suf. exact E.
    + split; [discriminate|]. intros (pre & suf & H).
      destruct pre; cbn [app] in H.
      * assert (prefix needle [] = true)
          by (apply prefix_app_iff; exists suf; exact H).
        congruence.
      * discriminate.
  - destruct (prefix needle (c :: hay)) eqn:E.
    + split; [intros _|reflexivity].
      apply prefix_app_iff in E as [suf E]. exists [], suf. exact E.
    + rewrite IH. split.
      * intros (pre & suf & ->). exists (c :: pre), suf. reflexivity.
      * intros (pre & suf & H). destruct pre as [|d pre]; cbn [app] in H.
        -- assert (prefix needle (c :: hay) = true)
             by (apply prefix_app_iff; exists suf; exact H).
           congruence.
        -- injection H as _ H. exists pre, suf. exact H.
Qed.

(** *** The lower case of one code point *)

Lemma lower_runs_eq : lower_runs = (65, 90, 1, 32) :: tl lower_runs.
Proof. reflexivity. Qed.

(** Beyond the ASCII letters, a run starts at 192 or above and, the Kelvin
    sign apart, leads to a code point that is not ASCII. *)
Lemma lower_runs_high :
  forallb (fun r : Z * Z * Z * Z =>
             let '(first, last, _, delta) := r in
             (192 <=? first) &&
             ((128 <=? first + delta) ||
              ((first =? 0x212A) && (last =? 0x212A))))
          (tl lower_runs) = true.
Proof. vm_compute. reflexivity. Qed.

Lemma find_none {A : Type} (f : A -> bool) (l : list A) :
  (forall x, In x l -> f x = false) -> find f l = None.
Proof.
  induction l as [|x l IH]; intros H; cbn [find]; [reflexivity|].
  rewrite (H x) by (left; reflexivity).
  apply IH. intros y Hy. apply H. right. exact Hy.
Qed.

Lemma to_lower_full_ascii (c : Z) :
  c < 128 ->
  to_lower_full c = [if (65 <=? c) && (c <=? 90) then c + 32 else c].
Proof.
  intros Hc. unfold to_lower_full.
  replace (c =? 0x130) with false by (symmetry; apply Z.eqb_neq; lia).
  rewrite lower_runs_eq. cbn [find in_run].
  rewrite Z.mod_1_r, Z.eqb_refl, andb_true_r.
  destruct ((65 <=? c) && (c <=? 90)); [reflexivity|].
  rewrite find_none; [reflexivity|].
  intros [[[a b] s] d] Hin.
  pose proof (proj1 (forallb_forall _ _) lower_runs_high _ Hin) as H.
  cbn beta iota in H. apply andb_true_iff in H. destruct H as [H _].
  apply Z.leb_le in H. cbn [in_run].
  replace (a <=? c) with false by (symmetry; apply Z.leb_gt; lia).
  reflexivity.
Qed.

Lemma to_lower_full_high (c : Z) :
  128 <= c -> c <> 0x212A -> c <> 0x130 ->
  exists d, to_lower_full c = [d] /\ 128 <= d.
Proof.
  intros Hc Hk Hi. unfold to_lower_full.
  replace (c =? 0x130) with false by (symmetry; apply Z.eqb_neq; lia).
  destruct (find (in_run c) lower_runs) as [[[[a b] s] d]|] eqn:E.
  - exists (c + d). split; [reflexivity|].
    apply find_some in E. destruct E as [Hin Hrun].
    rewrite lower_runs_eq in Hin. cbn [in_run] in Hrun.
    apply andb_true_iff in Hrun. destruct Hrun as [Hrun _].
    apply andb_true_iff in Hrun. destruct Hrun as [Ha Hb].
    apply Z.leb_le in Ha. apply Z.leb_le in Hb.
    destruct Hin as [Hin|Hin].
    + injection Hin as <- <- <- <-. lia.
    + pose proof (proj1 (forallb_forall _ _) lower_runs_high _ Hin) as H.
      cbn beta iota in H. apply andb_true_iff in H. destruct H as [_ H].
      apply orb_true_iff in H. destruct H as [H|H].
      * apply Z.leb_le in H. lia.
      * apply andb_true_iff in H. destruct H as [H1 H2].
        apply Z.eqb_eq in H1. apply Z.eqb_eq in H2. lia.
  - exists c. split; [reflexivity | exact Hc].
Qed.

Lemma lower_ucs4_ascii (before after : str) (c : Z) :
  lowers_to_ascii c = true -> lower_ucs4 before after c = [ascii_lower c].
Proof.
  unfold lowers_to_ascii, lower_ucs4, ascii_lower. intros H.
  apply orb_true_iff in H. destruct H as [H|H].
  - apply Z.ltb_lt in H.
    replace (c =? 0x3A3) with false by (symmetry; apply Z.eqb_neq; lia).
    replace (c =? 0x212A) with false by (symmetry; apply Z.eqb_neq; lia).
    apply to_lower_full_ascii. exact H.
  - apply Z.eqb_eq in H. subst c. reflexivity.
Qed.

Lemma ascii_lower_bound (c : Z) :
  lowers_to_ascii c = true -> ascii_lower c < 128.
Proof.
  unfold lowers_to_ascii, ascii_lower. intros H.
  destruct (c =? 0x212A) eqn:Ek; [lia|].
  rewrite orb_false_r in H. apply Z.ltb_lt in H.
  destruct ((65 <=? c) && (c <=? 90)) eqn:E; [|exact H].
  apply andb_true_iff in E. destruct E as [_ E]. apply Z.leb_le in E. lia.
Qed.

(** Any other code point lowers to code points outside ASCII, except that
    U+0130 lowers to the letter i followed by U+0307. *)
Lemma lower_ucs4_other (before after : str) (c : Z) :
  lowers_to_ascii c = false ->
  (c = 0x130 /\ lower_ucs4 before after c = [105; 775]) \/
  (exists d, lower_ucs4 before after c = [d] /\ 128 <= d).
Proof.
  unfold lowers_to_ascii. intros H.
  apply orb_false_iff in H. destruct H as [H1 H2].
  apply Z.ltb_ge in H1. apply Z.eqb_neq in H2.
  unfold lower_ucs4.
  destruct (c =? 0x3A3) eqn:Es.
  - right. unfold handle_capital_sigma.
    match goal with
    | |- exists d, [if ?b then _ else _] = _ /\ _ => destruct b
    end; eexists; (split; [reflexivity | lia]).
  - destruct (Z.eq_dec c 0x130) as [->|Hi].
    + left. split; reflexivity.
    + right. apply to_lower_full_high; assumption.
Qed.

(** *** The lower case of a string *)

Lemma lower_from_ascii (mid : str) :
  forall (ctx suf : str),
    forallb lowers_to_ascii mid = true ->
    lower_from ctx (mid ++ suf) =
    map ascii_lower mid ++ lower_from (rev mid ++ ctx) suf.
Proof.
  induction mid as [|c mid IH]; intros ctx suf H; [reflexivity|].
  cbn [forallb] in H. apply andb_true_iff in H. destruct H as [Hc Hm].
  cbn [app lower_from map rev].
  rewrite (lower_ucs4_ascii _ _ _ Hc), (IH (c :: ctx) suf Hm).
  rewrite <- app_assoc. reflexivity.
Qed.

Lemma lower_from_app (pre : str) :
  forall (ctx rest : str),
    exists x, lower_from ctx (pre ++ rest) =
              x ++ lower_from (rev pre ++ ctx) rest.
Proof.
  induction pre as [|c pre IH]; intros ctx rest.
  - exists []. reflexivity.
  - destruct (IH (c :: ctx) rest) as [x Hx].
    exists (lower_ucs4 ctx (pre ++ rest) c ++ x).
    cbn [app lower_from rev]. rewrite Hx, <- !app_assoc. reflexivity.
Qed.

(** A string whose lower case is ASCII is made of code points that lower
    to ASCII. *)
Lemma lower_from_all_ascii (mid : str) :
  forall ctx : str,
    Forall (fun a => a < 128) (lower_from ctx mid) ->
    forallb lowers_to_ascii mid = true.
Proof.
  induction mid as [|c mid IH]; intros ctx H; [reflexivity|].
  cbn [lower_from] in H. apply Forall_app in H. destruct H as [Hp Hr].
  cbn [forallb]. rewrite (IH _ Hr), andb_true_r.
  destruct (lowers_to_ascii c) eqn:E; [reflexivity|].
  exfalso.
  destruct (lower_ucs4_other ctx mid c E) as [[_ Hl]|[d [Hl Hd]]];
    rewrite Hl in Hp.
  - inversion Hp as [|? ? _ Hp']. inversion Hp' as [|? ? H775 _]. lia.
  - inversion Hp as [|? ? Hlt _]. lia.
Qed.

(** A marker at the start of the lower-cased text comes from whole code
    points of the text. *)
Lemma prefix_lower_from (m : str) :
  forall (name ctx : str),
    Forall (fun a => a < 128) m ->
    m = [] \/ last m 0 <> 105 ->
    prefix m (lower_from ctx name) = true ->
    exists mid suf,
      name = mid ++ suf /\ forallb lowers_to_ascii mid = true /\
      map ascii_lower mid = m.
Proof.
  induction m as [|a m IH]; intros name ctx Hm Hl Hp.
  - exists [], name. repeat split.
  - destruct name as [|c name]; [discriminate Hp|].
    cbn [lower_from] in Hp.
    inversion Hm as [|? ? Ha Hm']; subst.
    assert (Hl' : m = [] \/ last m 0 <> 105).
    { destruct m as [|b m]; [left; reflexivity|right].
      destruct Hl as [Hl|Hl]; [discriminate Hl|]. exact Hl. }
    destruct (lowers_to_ascii c) eqn:E.
    + rewrite (lower_ucs4_ascii _ _ _ E) in Hp.
      cbn [app prefix] in Hp.
      apply andb_true_iff in Hp. destruct Hp as [Hac Hp].
      apply Z.eqb_eq in Hac.
      destruct (IH name (c :: ctx) Hm' Hl' Hp) as (mid & suf & -> & Hs & Hmap).
      exists (c :: mid), suf. cbn [app forallb map].
      rewrite E, Hs, Hmap, Hac. repeat split.
    + exfalso.
      destruct (lower_ucs4_other ctx name c E) as [[_ Hc]|[d [Hc Hd]]];
        rewrite Hc in Hp; cbn [app prefix] in Hp.
      * apply andb_true_iff in Hp. destruct Hp as [Hac Hp].
        apply Z.eqb_eq in Hac. subst a.
        destruct m as [|b m].
        -- destruct Hl as [Hl|Hl]; [discriminate Hl|]. apply Hl. reflexivity.
        -- cbn [prefix] in Hp. apply andb_true_iff in Hp.
           destruct Hp as [Hb _]. apply Z.eqb_eq in Hb.
           inversion Hm' as [|? ? Hb' _]. lia.
      * apply andb_true_iff in Hp. destruct Hp as [Hac _].
        apply Z.eqb_eq in Hac. lia.
Qed.

(** A marker found in the lower-cased text starts where the lower case of
    some code point of the text starts. *)
Lemma str_in_lower_from (m : str) (name : str) :
  forall ctx : str,
    m <> [] ->
    Forall (fun a => a < 128) m ->
    str_in m (lower_from ctx name) = true ->
    exists pre rest,
      name = pre ++ rest /\
      prefix m (lower_from (rev pre ++ ctx) rest) = true.
Proof.
  induction name as [|c name IH]; intros ctx Hne Hm H.
  - cbn [lower_from] in H. rewrite str_in_eq in H.
    destruct m as [|a m]; [contradiction Hne; reflexivity|].
    discriminate H.
  - destruct (prefix m (lower_from ctx (c :: name))) eqn:Ep.
    + exists [], (c :: name). split; [reflexivity | exact Ep].
    + assert (Ht : str_in m (lower_from (c :: ctx) name) = true).
      { cbn [lower_from] in H, Ep.
        destruct (lowers_to_ascii c) eqn:E.
        - rewrite (lower_ucs4_ascii _ _ _ E) in H, Ep.
          cbn [app] in H, Ep. rewrite str_in_eq, Ep in H. exact H.
        - destruct (lower_ucs4_other ctx name c E) as [[_ Hc]|[d [Hc Hd]]];
            rewrite Hc in H, Ep; cbn [app] in H, Ep;
            rewrite str_in_eq, Ep in H.
          + rewrite str_in_eq in H.
            destruct m as [|a m]; [contradiction Hne; reflexivity|].
            inversion Hm as [|? ? Ha _]. cbn [prefix] in H.
            replace (a =? 775) with false in H
              by (symmetry; apply Z.eqb_neq; lia).
            exact H.
          + exact H. }
      destruct (IH (c :: ctx) Hne Hm Ht) as (pre & rest & -> & Hp).
      exists (c :: pre), rest. split; [reflexivity|].
      cbn [rev]. rewrite <- app_assoc. exact Hp.
Qed.

(** Searching a marker in the lower-cased name is the case-insensitive
    occurrence. *)
Lemma str_in_lower_iff (marker name : str) :
  marker_ok marker ->
  str_in marker (lower name) = true <-> occurs_ci marker name.
Proof.
  intros (Hne & Hm & Hl & Hlow). split.
  - intros H.
    destruct (str_in_lower_from marker name [] Hne Hm H)
      as (pre & rest & -> & Hp).
    destruct (prefix_lower_from marker rest _ Hm (or_intror Hl) Hp)
      as (mid & suf & -> & Hs & Hmap).
    exists pre, mid, suf. split; [reflexivity|].
    rewrite Hlow. unfold lower.
    rewrite <- (app_nil_r mid), (lower_from_ascii mid [] [] Hs).
    cbn [lower_from]. rewrite app_nil_r. exact Hmap.
  - intros (pre & mid & suf & -> & H). rewrite Hlow in H.
    assert (Hs : forallb lowers_to_ascii mid = true).
    { apply (lower_from_all_ascii mid []). unfold lower in H. rewrite H.
      exact Hm. }
    assert (Hmap : map ascii_lower mid = marker).
    { unfold lower in H.
      rewrite <- (app_nil_r mid), (lower_from_ascii mid [] [] Hs) in H.
      cbn [lower_from] in H. rewrite app_nil_r in H. exact H. }
    apply str_in_iff. unfold lower.
    destruct (lower_from_app pre [] (mid ++ suf)) as [x Hx].
    rewrite Hx, (lower_from_ascii mid _ suf Hs), Hmap.
    exists x, (lower_from (rev mid ++ rev pre ++ []) suf). reflexivity.
Qed.

(** The scan returns the value of the first marker that occurs. *)
Lemma scan_markers_first (pre post : list (str * Z)) (m : str) (v : Z)
    (lname : str) :
  str_in m lname = true ->
  (forall m' v', In (m', v') pre -> str_in m' lname = false) ->
  scan_markers (pre ++ (m, v) :: post) lname = v.
Proof.
  intros Hm Hpre. induction pre as [|[m' v'] pre IH]; cbn [app scan_markers].
  - now rewrite Hm.
  - rewrite (Hpre m' v') by (left; reflexivity).
    apply IH. intros m'' v'' Hin. apply (Hpre m'' v''). now right.
Qed.

Lemma scan_markers_none (table : list (str * Z)) (lname : str) :
  (forall m v, In (m, v) table -> str_in m lname = false) ->
  scan_markers table lname = 0.
Proof.
  induction table as [|[m v] table IH]; intros H; cbn [scan_markers];
    [reflexivity|].
  rewrite (H m v) by (left; reflexivity).
  apply IH. intros m' v' Hin. apply (H m' v'). now right.
Qed.

Lemma jmesh_markers_ok (m : str) (v : Z) :
  In (m, v) jmesh_markers -> marker_ok m.
Proof.
  cbn [jmesh_markers In]. intros H.
  repeat (destruct H as [H|H];
          [injection H as <- _; unfold marker_ok;
           split; [discriminate|];
           split; [cbn; repeat constructor|];
           split; [cbn; lia | vm_compute; reflexivity] |]).
  contradiction.
Qed.

(** The chain of tests in [get_jmesh_type] is a scan of the table. *)
Lemma get_jmesh_type_scan (slots : list str) (mat_idx : Z) :
  get_jmesh_type slots mat_idx =
  if (mat_idx <? 0) || (Z.of_nat (List.length slots) <=? mat_idx) then 0
  else scan_markers jmesh_markers (lower (slot_name slots mat_idx)).
Proof. reflexivity. Qed.

(** C8: the mesh type is 0 for a slot index that is negative or not below
    the number of slots; otherwise it is the value of the first marker of
    the table, in its order, that occurs in the slot's material name up to
    case, and 0 if none occurs.  The name ["MySkin(Skin)Variant"] gives 0. *)
Theorem get_jmesh_type_first_marker :
  (forall slots mat_idx,
      mat_idx < 0 \/ Z.of_nat (List.length slots) <= mat_idx ->
      get_jmesh_type slots mat_idx = 0) /\
  (forall slots mat_idx pre post m v,
      0 <= mat_idx < Z.of_nat (List.length slots) ->
      jmesh_markers = pre ++ (m, v) :: post ->
      occurs_ci m (slot_name slots mat_idx) ->
      (forall m' v', In (m', v') pre ->
                     ~ occurs_ci m' (slot_name slots mat_idx)) ->
      get_jmesh_type slots mat_idx = v) /\
  (forall slots mat_idx,
      0 <= mat_idx < Z.of_nat (List.length slots) ->
      (forall m v, In (m, v) jmesh_markers ->
                   ~ occurs_ci m (slot_name slots mat_idx)) ->
      get_jmesh_type slots mat_idx = 0) /\
  get_jmesh_type [literal "MySkin(Skin)Variant"] 0 = 0.
Proof.
  split; [|split; [|split]].
  - intros slots mat_idx H. rewrite get_jmesh_type_scan.
    destruct (mat_idx <? 0) eqn:E1; [reflexivity|].
    destruct (Z.of_nat (List.length slots) <=? mat_idx) eqn:E2; [reflexivity|].
    apply Z.ltb_ge in E1. apply Z.leb_gt in E2. lia.
  - intros slots mat_idx pre post m v Hr Ht Hm Hpre.
    rewrite get_jmesh_type_scan.
    replace (mat_idx <? 0) with false by (symmetry; apply Z.ltb_ge; lia).
    replace (Z.of_nat (List.length slots) <=? mat_idx) with false
      by (symmetry; apply Z.leb_gt; lia).
    cbn [orb]. cbv iota. rewrite Ht.
    assert (Hin : forall m0 v0, In (m0, v0) (pre ++ (m, v) :: post) ->
                                marker_ok m0).
    { intros m0 v0 Hi. rewrite <- Ht in Hi. eapply jmesh_markers_ok; eauto. }
    apply scan_markers_first.
    + apply str_in_lower_iff; [|exact Hm].
      apply (Hin m v), in_or_app. right. now left.
    + intros m' v' Hi.
      destruct (str_in m' (lower (slot_name slots mat_idx))) eqn:E; [|reflexivity].
      exfalso. apply (Hpre m' v' Hi).
      apply str_in_lower_iff; [|exact E].
      apply (Hin m' v'), in_or_app. now left.
  - intros slots mat_idx Hr Hnone.
    rewrite get_jmesh_type_scan.
    replace (mat_idx <? 0) with false by (symmetry; apply Z.ltb_ge; lia).
    replace (Z.of_nat (List.length slots) <=? mat_idx) with false
      by (symmetry; apply Z.leb_gt; lia).
    cbn [orb]. cbv iota.
    apply scan_markers_none. intros m v Hi.
    destruct (str_in m (lower (slot_name slots mat_idx))) eqn:E; [|reflexivity].
    exfalso. apply (Hnone m v Hi).
    apply str_in_lower_iff; [|exact E].
    eapply jmesh_markers_ok; eauto.
  - vm_compute. reflexivity.
Qed.

Lemma get_jmesh_type_first_marker_witness :
  get_jmesh_type [literal "Hull"; literal "Glass(TwoSided)(Unlit)"] 1 = 3.
Proof.
  apply (proj1 (proj2 get_jmesh_type_first_marker)
           [literal "Hull"; literal "Glass(TwoSided)(Unlit)"] 1
           [(literal "(skin)", 0); (literal "(twosidednorm)", 1);
            (literal "(translucent)", 2)]
           [(literal "(weapon)", 8); (literal "(unlit)", 16);
            (literal "(flat)", 32); (literal "(envmapped)", 64)]
           (literal "(twosided)") 3).
  - cbn [List.length]. lia.
  - reflexivity.
  - exists (literal "Glass"), (literal "(TwoSided)"), (literal "(Unlit)").
    split; vm_compute; reflexivity.
  - intros m' v' Hin Hocc.
    assert (Hl : marker_ok m')
      by (apply (jmesh_markers_ok m' v'); cbn [jmesh_markers In] in *; tauto).
    apply (str_in_lower_iff _ _ Hl) in Hocc.
    cbn [In] in Hin.
    destruct Hin as [H|[H|[H|[]]]]; injection H as <- _;
      vm_compute in Hocc; discriminate Hocc.
Defined.

(** ** [struct.pack] *)

Lemma pack_int_ok (size : nat) (lo hi v : Z) :
  lo <= v <= hi -> pack_int size lo hi v = Ok (le_split size v).
Proof.
  intros [H1 H2]. unfold pack_int.
  apply Z.leb_le in H1, H2. now rewrite H1, H2.
Qed.

Lemma pack_int_raise (size : nat) (lo hi v : Z) :
  v < lo \/ hi < v -> pack_int size lo hi v = Raise StructError.
Proof.
  intros H. unfold pack_int.
  destruct (lo <=? v) eqn:E1; [|reflexivity].
  destruct (v <=? hi) eqn:E2; [|reflexivity].
  apply Z.leb_le in E1, E2. lia.
Qed.

Lemma pack_int_inv (size : nat) (lo hi v : Z) (b : bytes) :
  pack_int size lo hi v = Ok b -> lo <= v <= hi /\ b = le_split size v.
Proof.
  unfold pack_int.
  destruct (lo <=? v) eqn:E1; [|discriminate].
  destruct (v <=? hi) eqn:E2; [|discriminate].
  apply Z.leb_le in E1, E2. intros H. injection H as <-. auto.
Qed.

(** A little-endian field of [n] bytes holds every value below [2^(8n)]. *)
Lemma le_field_roundtrip (n : nat) (v : Z) :
  0 <= v < 2 ^ (Z.of_nat n * 8) -> le_combine (le_split n v) = v.
Proof.
  intros H. rewrite le_combine_split. now apply Z.mod_small.
Qed.

(** ** Data file header *)

(** The header bytes written for a native [unsigned long] of
    [sizeof_long dm] bytes. *)
Lemma data_header_bytes (dm : data_model) (bm : BMesh) :
  Z.of_nat (List.length (bm_faces bm)) <= 65535 ->
  Z.of_nat (List.length (bm_verts bm)) <= 65535 ->
  data_header dm bm =
  Ok (le_split 2 (Z.of_nat (List.length (bm_faces bm)))
      ++ le_split 2 (Z.of_nat (List.length (bm_verts bm)))
      ++ le_split 2 0 ++ le_split 2 0
      ++ List.concat (repeat (le_split (sizeof_long dm) 0) 7)
      ++ repeat Byte.x00 12).
Proof.
  intros Hf Hv. unfold data_header.
  cbn [pack_all]. unfold pack_H at 1 2.
  rewrite !pack_int_ok by lia.
  destruct dm; cbn; rewrite <- !app_assoc; reflexivity.
Qed.

Lemma data_header_raise (dm : data_model) (bm : BMesh) :
  65535 < Z.of_nat (List.length (bm_faces bm)) \/
  65535 < Z.of_nat (List.length (bm_verts bm)) ->
  data_header dm bm = Raise StructError.
Proof.
  intros H. unfold data_header. cbn [pack_all]. unfold pack_H at 1 2.
  destruct (Z.le_gt_cases (Z.of_nat (List.length (bm_faces bm))) 65535)
    as [Hf|Hf].
  - rewrite (pack_int_ok 2 0 65535 (Z.of_nat (List.length (bm_faces bm))))
      by lia.
    rewrite (pack_int_raise 2 0 65535 (Z.of_nat (List.length (bm_verts bm))))
      by lia.
    reflexivity.
  - rewrite (pack_int_raise 2 0 65535 (Z.of_nat (List.length (bm_faces bm))))
      by lia.
    reflexivity.
Qed.

(** ** Sequencing of writes *)

Lemma obind_ok {A B : Type} (m : out A) (k : A -> out B) (b1 : bytes) (a : A) :
  m = (b1, inl a) ->
  obind m k = (b1 ++ fst (k a), snd (k a)).
Proof. intros ->. simpl. now destruct (k a). Qed.

Lemma obind_stop {A B : Type} (m : out A) (k : A -> out B) (b1 : bytes)
    (s : stop) :
  m = (b1, inr s) -> obind m k = (b1, inr s).
Proof. now intros ->. Qed.

Lemma try_emit (r : result bytes) :
  (b <~ try r ;; emit b) =
  match r with
  | Ok b => (b, inl tt)
  | Raise e => ([], inr (Raised e))
  end.
Proof. destruct r; reflexivity. Qed.

Lemma for_each_app {A : Type} (body : A -> out unit) (l1 l2 : list A) :
  for_each body (l1 ++ l2) = (for_each body l1 ;;; for_each body l2).
Proof.
  induction l1 as [|a l1 IH]; simpl.
  - now destruct (for_each body l2) as [b [[]|s]].
  - rewrite IH. destruct (body a) as [b1 [[]|s]]; simpl; [|reflexivity].
    destruct (for_each body l1) as [b2 [[]|s]]; simpl.
    + destruct (for_each body l2) as [b3 r]. now rewrite app_assoc.
    + reflexivity.
Qed.

(** When every element is written without stopping, the output is the
    concatenation of the pieces. *)
Lemma for_each_all_ok {A : Type} (body : A -> out unit) (piece : A -> bytes)
    (l : list A) :
  (forall a, In a l -> body a = (piece a, inl tt)) ->
  for_each body l = (List.concat (map piece l), inl tt).
Proof.
  induction l as [|a l IH]; intros H; simpl; [reflexivity|].
  rewrite (H a) by now left. simpl.
  rewrite IH by (intros a' Ha'; apply H; now right). reflexivity.
Qed.

(** ** Shape of a run of [execute] *)

Lemma write_data_file_eq (dm : data_model) (props : Properties)
    (scene : Scene) (mesh_obj : MeshObject) :
  let snap := get_bmesh_snapshot mesh_obj (frame_current scene)
                (p_flip_model_x props) (p_flip_model_y props)
                (p_flip_model_z props) in
  write_data_file dm props scene mesh_obj =
  match data_header dm snap with
  | Ok h =>
      (h ++ fst (for_each (write_face props mesh_obj (bm_uv_layers snap))
                          (bm_faces snap)),
       snd (for_each (write_face props mesh_obj (bm_uv_layers snap))
                     (bm_faces snap)))
  | Raise e => ([], inr (Raised e))
  end.
Proof.
  intros snap. unfold write_data_file. fold snap.
  destruct (data_header dm snap) as [h|e]; simpl; [|reflexivity].
  now destruct (for_each _ _).
Qed.

Lemma execute_reaches (dm : data_model) (props : Properties) (scene : Scene)
    (mesh_obj : MeshObject) :
  reaches_files props scene mesh_obj ->
  execute dm props scene (Some mesh_obj) =
  match write_aniv_file dm props scene mesh_obj with
  | (aniv, inr s) =>
      (status_of_stop s,
       {| log_txt := true; aniv_3d := Some aniv;
          data_3d := None; class_uc := false |})
  | (aniv, inl _) =>
      match write_data_file dm props scene mesh_obj with
      | (data, inr s) =>
          (status_of_stop s,
           {| log_txt := true; aniv_3d := Some aniv;
              data_3d := Some data; class_uc := false |})
      | (data, inl _) =>
          (FINISHED,
           {| log_txt := true; aniv_3d := Some aniv;
              data_3d := Some data; class_uc := true |})
      end
  end.
Proof.
  intros (Hf & Hm & Hc). unfold execute.
  replace (0 >=? frame_end scene - frame_start scene + 1) with false
    by (symmetry; rewrite Z.geb_leb; apply Z.leb_gt; lia).
  rewrite Hm, Hc. simpl.
  destruct (write_aniv_file dm props scene mesh_obj) as [aniv [u|s]];
    [|reflexivity].
  now destruct (write_data_file dm props scene mesh_obj) as [data [u'|s]].
Qed.

(** A file exists after the run only if the three checks passed. *)
Lemma execute_files_inv (dm : data_model) (props : Properties)
    (scene : Scene) (ctx : option MeshObject) :
  snd (execute dm props scene ctx) <> no_files ->
  exists mesh_obj, ctx = Some mesh_obj /\ reaches_files props scene mesh_obj.
Proof.
  unfold execute, reaches_files.
  destruct (0 >=? frame_end scene - frame_start scene + 1) eqn:E;
    [simpl; congruence|].
  destruct ctx as [mesh_obj|]; [|simpl; congruence].
  destruct (obj_is_mesh mesh_obj) eqn:Em; [|simpl; congruence].
  simpl negb. cbv iota.
  destruct (check_mesh (data_vertices mesh_obj) (p_scale props))
    as [[|]|e] eqn:Ec; try (simpl; congruence).
  intros _. exists mesh_obj.
  rewrite Z.geb_leb in E. apply Z.leb_gt in E.
  repeat split; try assumption; try reflexivity; lia.
Qed.

Lemma execute_finished_inv (dm : data_model) (props : Properties)
    (scene : Scene) (ctx : option MeshObject) :
  fst (execute dm props scene ctx) = FINISHED ->
  exists mesh_obj aniv data,
    ctx = Some mesh_obj /\
    reaches_files props scene mesh_obj /\
    write_aniv_file dm props scene mesh_obj = (aniv, inl tt) /\
    write_data_file dm props scene mesh_obj = (data, inl tt) /\
    snd (execute dm props scene ctx) =
    {| log_txt := true; aniv_3d := Some aniv;
       data_3d := Some data; class_uc := true |}.
Proof.
  intros H.
  assert (Hne : snd (execute dm props scene ctx) <> no_files).
  { intros Hno. revert H Hno. unfold execute.
    destruct (0 >=? _); [discriminate|].
    destruct ctx as [o|]; [|discriminate].
    destruct (negb (obj_is_mesh o)); [discriminate|].
    destruct (check_mesh _ _) as [[|]|e]; try discriminate.
    destruct (write_aniv_file _ _ _ _) as [a [u|s]].
    - destruct (write_data_file _ _ _ _) as [d [u'|s]]; simpl; discriminate.
    - simpl. discriminate. }
  destruct (execute_files_inv _ _ _ _ Hne) as (mesh_obj & -> & Hr).
  rewrite (execute_reaches dm props scene mesh_obj Hr) in H |- *.
  destruct (write_aniv_file dm props scene mesh_obj) as [aniv [[]|s]] eqn:Ea.
  - destruct (write_data_file dm props scene mesh_obj) as [data [[]|s]] eqn:Ed.
    + exists mesh_obj, aniv, data. repeat split; auto; apply Hr.
    + destruct s; discriminate.
  - destruct s; discriminate.
Qed.

(** ** C2: the data file header *)

(** C2, as stated, fails: the header of the empty mesh on a platform with
    a 4-byte [unsigned long] is not 46 bytes long. *)
Lemma data_header_46_counterexample :
  exists h,
    data_header LLP64 {| bm_verts := []; bm_faces := []; bm_uv_layers := 0 |}
    = Ok h /\
    List.length h = 48%nat /\ List.length h <> 46%nat.
Proof.
  eexists. split; [reflexivity|]. split; [reflexivity|]. simpl. lia.
Qed.

(** C2, amended: where the native [unsigned long] is 4 bytes wide and the
    snapshot has at most 65535 faces and 65535 vertices, the data file
    header is exactly 48 bytes: four little-endian 16-bit fields (face
    count, vertex count, 0, 0), seven 32-bit zero fields and twelve zero
    bytes, and the two count fields decode to the snapshot's counts.  Every
    export that finishes starts its data file with this header. *)
Theorem data_header_layout :
  (forall dm bm,
      sizeof_long dm = 4%nat ->
      Z.of_nat (List.length (bm_faces bm)) <= 65535 ->
      Z.of_nat (List.length (bm_verts bm)) <= 65535 ->
      exists h,
        data_header dm bm = Ok h /\
        List.length h = 48%nat /\
        h = le_split 2 (Z.of_nat (List.length (bm_faces bm)))
            ++ le_split 2 (Z.of_nat (List.length (bm_verts bm)))
            ++ le_split 2 0 ++ le_split 2 0
            ++ List.concat (repeat (le_split 4 0) 7)
            ++ repeat Byte.x00 12 /\
        le_combine (firstn 2 h) = Z.of_nat (List.length (bm_faces bm)) /\
        le_combine (firstn 2 (skipn 2 h))
        = Z.of_nat (List.length (bm_verts bm))) /\
  (forall dm props scene ctx,
      sizeof_long dm = 4%nat ->
      fst (execute dm props scene ctx) = FINISHED ->
      exists mesh_obj data,
        ctx = Some mesh_obj /\
        data_3d (snd (execute dm props scene ctx)) = Some data /\
        data_header dm
          (get_bmesh_snapshot mesh_obj (frame_current scene)
             (p_flip_model_x props) (p_flip_model_y props)
             (p_flip_model_z props))
        = Ok (firstn 48 data)).
Proof.
  assert (part1 : forall dm bm,
      sizeof_long dm = 4%nat ->
      Z.of_nat (List.length (bm_faces bm)) <= 65535 ->
      Z.of_nat (List.length (bm_verts bm)) <= 65535 ->
      exists h,
        data_header dm bm = Ok h /\
        List.length h = 48%nat /\
        h = le_split 2 (Z.of_nat (List.length (bm_faces bm)))
            ++ le_split 2 (Z.of_nat (List.length (bm_verts bm)))
            ++ le_split 2 0 ++ le_split 2 0
            ++ List.concat (repeat (le_split 4 0) 7)
            ++ repeat Byte.x00 12 /\
        le_combine (firstn 2 h) = Z.of_nat (List.length (bm_faces bm)) /\
        le_combine (firstn 2 (skipn 2 h))
        = Z.of_nat (List.length (bm_verts bm))).
  { intros dm bm Hl Hf Hv. eexists.
    split; [apply data_header_bytes; assumption|]. rewrite Hl.
    set (nf := Z.of_nat (List.length (bm_faces bm))) in *.
    set (nv := Z.of_nat (List.length (bm_verts bm))) in *.
    assert (Hnf : 0 <= nf) by (subst nf; lia).
    assert (Hnv : 0 <= nv) by (subst nv; lia).
    split; [reflexivity|]. split; [reflexivity|]. split.
    - change (firstn 2 (le_split 2 nf ++ _)) with (le_split 2 nf).
      apply le_field_roundtrip. simpl. lia.
    - change (firstn 2 (skipn 2 (le_split 2 nf ++ le_split 2 nv ++ _)))
        with (le_split 2 nv).
      apply le_field_roundtrip. simpl. lia. }
  split; [exact part1|].
  intros dm props scene ctx Hl Hfin.
  destruct (execute_finished_inv _ _ _ _ Hfin)
    as (mesh_obj & aniv & data & -> & Hr & Ha & Hd & Hfs).
  exists mesh_obj, data. split; [reflexivity|].
  rewrite Hfs. split; [reflexivity|].
  rewrite write_data_file_eq in Hd. cbv zeta in Hd.
  set (snap := get_bmesh_snapshot _ _ _ _ _) in *.
  destruct (data_header dm snap) as [h|e] eqn:Eh; [|discriminate].
  injection Hd as <- _.
  destruct (Z.le_gt_cases (Z.of_nat (List.length (bm_faces snap))) 65535)
    as [Hf|Hf];
    [|rewrite data_header_raise in Eh by (left; lia); discriminate].
  destruct (Z.le_gt_cases (Z.of_nat (List.length (bm_verts snap))) 65535)
    as [Hv|Hv];
    [|rewrite data_header_raise in Eh by (right; lia); discriminate].
  destruct (part1 dm snap Hl Hf Hv) as (h' & Eh' & Hlen & _).
  rewrite Eh in Eh'. injection Eh' as <-.
  f_equal. rewrite firstn_app, <- Hlen, firstn_all, Nat.sub_diag.
  simpl. now rewrite app_nil_r.
Qed.

Lemma data_header_layout_witness :
  exists h,
    data_header LLP64
      {| bm_verts := [(of_int 1, of_int 2, of_int 3)];
         bm_faces := []; bm_uv_layers := 0 |} = Ok h /\
    List.length h = 48%nat /\
    le_combine (firstn 2 (skipn 2 h)) = 1.
Proof.
  destruct (proj1 data_header_layout LLP64
              {| bm_verts := [(of_int 1, of_int 2, of_int 3)];
                 bm_faces := []; bm_uv_layers := 0 |})
    as (h & H1 & H2 & _ & _ & H5).
  - reflexivity.
  - simpl. lia.
  - simpl. lia.
  - exists h. auto.
Defined.

(** ** C3: the animation file header and the size of a frame *)

Lemma for_each_cons_inv {A : Type} (body : A -> out unit) (a : A)
    (l : list A) (bs : bytes) :
  for_each body (a :: l) = (bs, inl tt) ->
  exists b1 b2,
    body a = (b1, inl tt) /\ for_each body l = (b2, inl tt) /\ bs = b1 ++ b2.
Proof.
  simpl. destruct (body a) as [b1 [[]|s]]; simpl; [|discriminate].
  destruct (for_each body l) as [b2 [[]|s]]; [|discriminate].
  intros H. injection H as <-. eauto.
Qed.

(** If every piece has [w] bytes, a completed loop wrote [w] bytes per
    element. *)
Lemma for_each_length {A : Type} (body : A -> out unit) (w : Z) (l : list A) :
  (forall a bs, body a = (bs, inl tt) -> Z.of_nat (List.length bs) = w) ->
  forall bs, for_each body l = (bs, inl tt) ->
             Z.of_nat (List.length bs) = Z.of_nat (List.length l) * w.
Proof.
  intros Hw. induction l as [|a l IH]; intros bs H.
  - injection H as <-. reflexivity.
  - apply for_each_cons_inv in H as (b1 & b2 & H1 & H2 & ->).
    rewrite length_app, Nat2Z.inj_add, (Hw _ _ H1), (IH _ H2).
    cbn [List.length]. lia.
Qed.

Lemma write_vertex_length (props : Properties) (co : coord) (bs : bytes) :
  write_vertex props co = (bs, inl tt) ->
  Z.of_nat (List.length bs) = packed_width (p_export_format_type props).
Proof.
  unfold write_vertex.
  destruct (enc_vert _ _) as [v|e]; simpl; [|discriminate].
  destruct (pack_std _ v) as [b|e] eqn:Ep; simpl; [|discriminate].
  intros H. injection H as <-. rewrite ?app_nil_r.
  destruct (p_export_format_type props); simpl in Ep;
    apply pack_int_inv in Ep as [_ ->]; now rewrite length_le_split.
Qed.

Lemma write_frame_length (props : Properties) (mesh_obj : MeshObject) (f : Z)
    (bs : bytes) :
  write_frame props mesh_obj f = (bs, inl tt) ->
  Z.of_nat (List.length bs) =
  Z.of_nat (List.length (bm_verts (evaluated mesh_obj f)))
  * packed_width (p_export_format_type props).
Proof.
  unfold write_frame. intros H.
  apply (for_each_length _ (packed_width (p_export_format_type props))) in H.
  - rewrite H. simpl. now rewrite length_map.
  - intros a b. apply write_vertex_length.
Qed.

Lemma aniv_header_bytes (dm : data_model) (props : Properties)
    (scene : Scene) (mesh_obj : MeshObject) :
  let frames := frame_end scene - frame_start scene + 1 in
  let size := Z.of_nat (List.length (data_vertices mesh_obj))
              * calcsize dm (vert_data_type (p_export_format_type props)) in
  -32768 <= frames <= 32767 ->
  size <= 32767 ->
  aniv_header dm props scene mesh_obj =
  (le_split 2 frames ++ le_split 2 size, inl tt).
Proof.
  intros frames size Hf Hs. unfold aniv_header. fold frames. fold size.
  assert (0 <= size).
  { subst size. destruct (p_export_format_type props), dm; simpl; lia. }
  unfold pack_std. rewrite !pack_int_ok by lia. simpl.
  now rewrite ?app_nil_r.
Qed.

(** C3, as stated, fails: an Engine export of a mesh of 8192 vertices has
    the frame size 32768, which the signed 16-bit field cannot hold;
    [struct.error] is raised after the frame count was written and the
    header has no frame-size field. *)
Lemma aniv_header_counterexample :
  let props := {| p_scale := of_int 1; p_flip_model_x := false;
                  p_flip_model_y := false; p_flip_model_z := false;
                  p_flip_uv_u := false; p_flip_uv_v := true;
                  p_export_format_type := UNREAL1 |} in
  let scene := {| frame_current := 1; frame_start := 1; frame_end := 1 |} in
  let origin : coord := (of_int 0, of_int 0, of_int 0) in
  let mesh_obj :=
    {| obj_is_mesh := true; data_vertices := repeat origin (Z.to_nat 8192);
       material_slots := [];
       evaluated := fun _ => {| bm_verts := repeat origin (Z.to_nat 8192);
                                bm_faces := []; bm_uv_layers := 0 |} |} in
  execute LLP64 props scene (Some mesh_obj)
  = (EXCEPTION StructError,
     {| log_txt := true; aniv_3d := Some (le_split 2 1);
        data_3d := None; class_uc := false |}) /\
  aniv_header LLP64 props scene mesh_obj
  = (le_split 2 1, inr (Raised StructError)).
Proof.
  split; vm_compute; reflexivity.
Qed.

(** The frame-size field is computed from the base mesh, the frames from
    the evaluated mesh: with one vertex in the base mesh and two in the
    evaluated one, the field says 4 and the frame has 8 bytes. *)
Lemma frame_size_from_base_mesh :
  let props := {| p_scale := of_int 1; p_flip_model_x := false;
                  p_flip_model_y := false; p_flip_model_z := false;
                  p_flip_uv_u := false; p_flip_uv_v := true;
                  p_export_format_type := UNREAL1 |} in
  let scene := {| frame_current := 1; frame_start := 1; frame_end := 1 |} in
  let origin : coord := (of_int 0, of_int 0, of_int 0) in
  let mesh_obj :=
    {| obj_is_mesh := true; data_vertices := [origin];
       material_slots := [];
       evaluated := fun _ => {| bm_verts := [origin; origin];
                                bm_faces := []; bm_uv_layers := 0 |} |} in
  exists body,
    aniv_3d (snd (execute LLP64 props scene (Some mesh_obj)))
    = Some (le_split 2 1 ++ le_split 2 4 ++ body) /\
    List.length body = 8%nat.
Proof.
  eexists. split; [vm_compute; reflexivity|]. reflexivity.
Qed.

(** C3, amended: let the base mesh and the snapshot of every exported
    frame have the same number [n] of vertices, and let the frame count
    and the frame size, [n] times the packed width (4 bytes for Engine
    where the native [unsigned long] is 4 bytes wide, 8 bytes for
    Extended), fit a signed 16-bit field.  Then the animation file header
    is the little-endian frame count followed by the little-endian frame
    size, whatever the frames contain, and every exported frame written
    to completion takes exactly the frame size. *)
Theorem aniv_header_frame_size (dm : data_model) (props : Properties)
    (scene : Scene) (mesh_obj : MeshObject) (n : nat) :
  let frames := frame_end scene - frame_start scene + 1 in
  let fmt := p_export_format_type props in
  let size := Z.of_nat n * packed_width fmt in
  fmt = DEUSEX \/ sizeof_long dm = 4%nat ->
  0 < frames <= 32767 ->
  size <= 32767 ->
  List.length (data_vertices mesh_obj) = n ->
  (forall f, In f (frame_range scene) ->
             List.length (bm_verts (frame_snapshot props mesh_obj f)) = n) ->
  aniv_header dm props scene mesh_obj
  = (le_split 2 frames ++ le_split 2 size, inl tt) /\
  le_combine (le_split 2 frames) = frames /\
  le_combine (le_split 2 size) = size /\
  (forall f bs,
      In f (frame_range scene) ->
      write_frame props mesh_obj f = (bs, inl tt) ->
      Z.of_nat (List.length bs) = size) /\
  (forall mesh_obj',
      List.length (data_vertices mesh_obj') = n ->
      (forall f, In f (frame_range scene) ->
                 List.length (bm_verts (frame_snapshot props mesh_obj' f)) = n) ->
      aniv_header dm props scene mesh_obj'
      = aniv_header dm props scene mesh_obj).
Proof.
  intros frames fmt size Hw Hf Hs Hbase Hsnap.
  assert (Hc : calcsize dm (vert_data_type fmt) = packed_width fmt).
  { destruct Hw as [->|Hl]; [reflexivity|].
    destruct fmt; simpl; [now rewrite Hl | reflexivity]. }
  assert (H0 : 0 <= size).
  { subst size. destruct fmt; simpl; lia. }
  split.
  - rewrite aniv_header_bytes; fold frames; fold fmt; rewrite ?Hc, ?Hbase;
      [reflexivity | lia | exact Hs].
  - split; [apply le_field_roundtrip; simpl; lia|].
    split; [apply le_field_roundtrip; simpl; lia|].
    split.
    + intros f bs Hin H. rewrite (write_frame_length _ _ _ _ H).
      specialize (Hsnap f Hin). unfold frame_snapshot in Hsnap.
      cbn [get_bmesh_snapshot bm_verts] in Hsnap.
      rewrite length_map in Hsnap. rewrite Hsnap. reflexivity.
    + intros mesh_obj' Hbase' _. unfold aniv_header.
      now rewrite Hbase, Hbase'.
Qed.

Lemma aniv_header_frame_size_witness :
  let props := {| p_scale := of_int 1; p_flip_model_x := false;
                  p_flip_model_y := false; p_flip_model_z := false;
                  p_flip_uv_u := false; p_flip_uv_v := true;
                  p_export_format_type := UNREAL1 |} in
  let scene := {| frame_current := 1; frame_start := 1; frame_end := 3 |} in
  let v : coord := (of_int 10, of_int (-5), of_int 2) in
  let mesh_obj :=
    {| obj_is_mesh := true; data_vertices := [v; v];
       material_slots := [];
       evaluated := fun _ => {| bm_verts := [v; v];
                                bm_faces := []; bm_uv_layers := 0 |} |} in
  aniv_header LLP64 props scene mesh_obj
  = (le_split 2 3 ++ le_split 2 8, inl tt).
Proof.
  intros props scene v mesh_obj.
  destruct (aniv_header_frame_size LLP64 props scene mesh_obj 2) as [H _].
  - right. reflexivity.
  - simpl. lia.
  - simpl. lia.
  - reflexivity.
  - intros f _. reflexivity.
  - exact H.
Defined.

(** ** Bit fields *)

Lemma lor_bound (x y n : Z) :
  0 <= n -> 0 <= x < 2 ^ n -> 0 <= y < 2 ^ n -> 0 <= Z.lor x y < 2 ^ n.
Proof.
  intros Hn Hx Hy.
  assert (H0 : 0 <= Z.lor x y) by (apply Z.lor_nonneg; lia).
  split; [exact H0|].
  destruct (Z.eq_dec (Z.lor x y) 0) as [->|Hne];
    [apply Z.pow_pos_nonneg; lia|].
  apply Z.log2_lt_pow2; [lia|].
  rewrite Z.log2_lor by lia.
  destruct (Z.eq_dec x 0) as [->|Hx0]; destruct (Z.eq_dec y 0) as [->|Hy0];
    simpl in *; try lia.
  - rewrite Z.max_r by apply Z.log2_nonneg. apply Z.log2_lt_pow2; lia.
  - rewrite Z.max_l by apply Z.log2_nonneg. apply Z.log2_lt_pow2; lia.
  - apply Z.max_lub_lt; apply Z.log2_lt_pow2; lia.
Qed.

(** Three masked fields of [wa], [wb] and [wd] bits, side by side. *)
Lemma fields_bound (a b d wa wb wd : Z) :
  0 <= wa -> 0 <= wb -> 0 <= wd ->
  0 <= Z.lor (Z.lor (Z.land a (Z.ones wa))
                    (Z.shiftl (Z.land b (Z.ones wb)) wa))
             (Z.shiftl (Z.land d (Z.ones wd)) (wa + wb))
  < 2 ^ (wa + wb + wd).
Proof.
  intros Ha Hb Hd.
  rewrite !Z.land_ones, !Z.shiftl_mul_pow2 by lia.
  pose proof (Z.mod_pos_bound a (2 ^ wa) ltac:(apply Z.pow_pos_nonneg; lia)).
  pose proof (Z.mod_pos_bound b (2 ^ wb) ltac:(apply Z.pow_pos_nonneg; lia)).
  pose proof (Z.mod_pos_bound d (2 ^ wd) ltac:(apply Z.pow_pos_nonneg; lia)).
  rewrite !Z.pow_add_r by lia.
  set (A := a mod 2 ^ wa) in *. set (B := b mod 2 ^ wb) in *.
  set (D := d mod 2 ^ wd) in *.
  set (P := 2 ^ wa) in *. set (Q := 2 ^ wb) in *. set (R := 2 ^ wd) in *.
  assert (HP : 0 < P) by (apply Z.pow_pos_nonneg; lia).
  assert (HQ : 0 < Q) by (apply Z.pow_pos_nonneg; lia).
  assert (HR : 0 < R) by (apply Z.pow_pos_nonneg; lia).
  assert (HPQ : P * Q <= P * Q * R) by nia.
  assert (HBP : 0 <= B * P <= (Q - 1) * P) by nia.
  assert (HDPQ : 0 <= D * (P * Q) <= (R - 1) * (P * Q)) by nia.
  assert (Hn : 0 <= wa + wb + wd) by lia.
  pose proof (lor_bound A (B * P) (wa + wb + wd) Hn) as HL1.
  rewrite !Z.pow_add_r in HL1 by lia. fold P Q R in HL1.
  pose proof (lor_bound (Z.lor A (B * P)) (D * (P * Q)) (wa + wb + wd) Hn)
    as HL2.
  rewrite !Z.pow_add_r in HL2 by lia. fold P Q R in HL2.
  apply HL2; [apply HL1|]; nia.
Qed.

Lemma enc_vert_unreal_range (c : coord) (r : Z) :
  enc_vert_unreal c = Ok r -> 0 <= r < 2 ^ 32.
Proof.
  destruct c as [[x y] z]. unfold enc_vert_unreal.
  destruct (to_int (mul x (of_int 8))) as [a|]; [|discriminate].
  destruct (to_int (mul y (of_int 8))) as [b|]; [|discriminate].
  destruct (to_int (mul z (of_int 4))) as [d|]; [|discriminate].
  simpl. intros H. injection H as <-.
  exact (fields_bound a b d 11 11 10 ltac:(lia) ltac:(lia) ltac:(lia)).
Qed.

Lemma enc_vert_deusex_range (c : coord) (r : Z) :
  enc_vert_deusex c = Ok r -> 0 <= r < 2 ^ 48.
Proof.
  destruct c as [[x y] z]. unfold enc_vert_deusex.
  destruct (to_int (mul x (of_int 256))) as [a|]; [|discriminate].
  destruct (to_int (mul y (of_int 256))) as [b|]; [|discriminate].
  destruct (to_int (mul z (of_int 256))) as [d|]; [|discriminate].
  simpl. intros H. injection H as <-.
  exact (fields_bound a b d 16 16 16 ltac:(lia) ltac:(lia) ltac:(lia)).
Qed.

(** A vertex that can be packed is written as one field of the packed
    width: [struct.pack] never rejects a packed vertex. *)
Lemma write_vertex_ok (props : Properties) (co : coord) :
  is_ok (enc_vert (p_export_format_type props)
           (scale_coord (p_scale props) co)) = true ->
  write_vertex props co = (vertex_bytes props co, inl tt).
Proof.
  unfold write_vertex, vertex_bytes.
  destruct (enc_vert _ _) as [v|e] eqn:E; [intros _|discriminate].
  simpl.
  destruct (p_export_format_type props); simpl in *.
  - apply enc_vert_unreal_range in E.
    rewrite pack_int_ok by lia. simpl. now rewrite ?app_nil_r.
  - apply enc_vert_deusex_range in E.
    assert (2 ^ 48 < 2 ^ 64) by (apply Z.pow_lt_mono_r; lia).
    rewrite pack_int_ok by lia. simpl. now rewrite ?app_nil_r.
Qed.

Lemma write_vertex_stop (props : Properties) (co : coord) (bs : bytes)
    (s : stop) :
  write_vertex props co = (bs, inr s) -> exists e, s = Raised e.
Proof.
  unfold write_vertex.
  destruct (enc_vert _ _) as [v|e]; simpl.
  - destruct (pack_std _ v) as [b|e]; simpl; [discriminate|].
    intros H. injection H as _ <-. eauto.
  - intros H. injection H as _ <-. eauto.
Qed.

(** A loop whose body never cancels never cancels. *)
Lemma for_each_stop {A : Type} (body : A -> out unit) (l : list A) :
  (forall a bs s, body a = (bs, inr s) -> exists e, s = Raised e) ->
  forall bs s, for_each body l = (bs, inr s) -> exists e, s = Raised e.
Proof.
  intros Hb. induction l as [|a l IH]; intros bs s; simpl; [discriminate|].
  destruct (body a) as [b1 [[]|s1]] eqn:Ea; simpl.
  - destruct (for_each body l) as [b2 [[]|s2]]; [discriminate|].
    intros H. injection H as _ <-. eapply IH. reflexivity.
  - intros H. injection H as _ <-. eapply Hb. exact Ea.
Qed.

Lemma obind_stop_inv {A B : Type} (m : out A) (k : A -> out B) (bs : bytes)
    (s : stop) :
  obind m k = (bs, inr s) ->
  (exists b1, m = (b1, inr s)) \/
  (exists b1 a b2, m = (b1, inl a) /\ k a = (b2, inr s)).
Proof.
  destruct m as [b1 [a|s1]]; simpl.
  - destruct (k a) as [b2 r] eqn:E. intros H. injection H as _ ->.
    right. eauto.
  - intros H. injection H as _ ->. left. eauto.
Qed.

Lemma aniv_header_eq (dm : data_model) (props : Properties)
    (scene : Scene) (mesh_obj : MeshObject) :
  aniv_header dm props scene mesh_obj =
  match pack_std Std_h (frame_end scene - frame_start scene + 1) with
  | Raise e => ([], inr (Raised e))
  | Ok h1 =>
      match pack_std Std_h
              (Z.of_nat (List.length (data_vertices mesh_obj))
               * calcsize dm (vert_data_type (p_export_format_type props)))
      with
      | Ok h2 => (h1 ++ h2, inl tt)
      | Raise e => (h1, inr (Raised e))
      end
  end.
Proof.
  unfold aniv_header.
  generalize (pack_std Std_h (frame_end scene - frame_start scene + 1)).
  generalize (pack_std Std_h
                (Z.of_nat (List.length (data_vertices mesh_obj))
                 * calcsize dm (vert_data_type (p_export_format_type props)))).
  intros [h2|e2] [h1|e1]; simpl; rewrite ?app_nil_r; reflexivity.
Qed.

(** The animation file is never the place of a cancellation. *)
Lemma write_aniv_file_stop (dm : data_model) (props : Properties)
    (scene : Scene) (mesh_obj : MeshObject) (bs : bytes) (s : stop) :
  write_aniv_file dm props scene mesh_obj = (bs, inr s) ->
  exists e, s = Raised e.
Proof.
  unfold write_aniv_file. intros H.
  apply obind_stop_inv in H as [[b1 H]|(b1 & [] & b2 & _ & H)].
  - rewrite aniv_header_eq in H.
    destruct (pack_std Std_h (frame_end scene - frame_start scene + 1))
      as [h1|e1]; [|injection H as _ <-; eauto].
    destruct (pack_std Std_h _) as [h2|e2]; [discriminate|].
    injection H as _ <-; eauto.
  - eapply for_each_stop; [|exact H].
    intros f bs' s''. unfold write_frame.
    apply for_each_stop. intros co. apply write_vertex_stop.
Qed.

(** ** C4: failures and the files they leave *)

Lemma face_loops_length (poly : BMFace) :
  List.length (face_loops poly) = 3%nat.
Proof. unfold face_loops. destruct (face_corners poly) as [[a b] c]. reflexivity. Qed.

(** The triangle test of the face loop never fires. *)
Lemma write_face_eq (props : Properties) (mesh_obj : MeshObject)
    (uv_chan_count : nat) (poly : BMFace) :
  write_face props mesh_obj uv_chan_count poly =
  match face_record (material_slots mesh_obj) uv_chan_count
          (p_flip_uv_u props) (p_flip_uv_v props) poly with
  | Ok r => (r, inl tt)
  | Raise e => ([], inr (Raised e))
  end.
Proof.
  unfold write_face. rewrite face_loops_length. cbn [Nat.eqb negb].
  apply try_emit.
Qed.

Lemma write_face_stop (props : Properties) (mesh_obj : MeshObject)
    (uv_chan_count : nat) (poly : BMFace) (bs : bytes) (s : stop) :
  write_face props mesh_obj uv_chan_count poly = (bs, inr s) ->
  exists e, s = Raised e.
Proof.
  rewrite write_face_eq. destruct (face_record _ _ _ _ _) as [r|e]; intros H.
  - discriminate H.
  - injection H as _ <-. exists e. reflexivity.
Qed.

Lemma write_data_file_stop (dm : data_model) (props : Properties)
    (scene : Scene) (mesh_obj : MeshObject) (bs : bytes) (s : stop) :
  write_data_file dm props scene mesh_obj = (bs, inr s) ->
  exists e, s = Raised e.
Proof.
  rewrite write_data_file_eq. cbv zeta.
  destruct (data_header dm _) as [h|e].
  - destruct (for_each _ _) as [recs r] eqn:E. cbn [fst snd].
    intros H. injection H as _ ->.
    eapply for_each_stop; [|exact E].
    intros a b s'. apply write_face_stop.
  - intros H. injection H as _ <-. exists e. reflexivity.
Qed.

(** C4, as stated, fails: an export can fail after files were written.
    With 4096 vertices the Extended format's frame size does not fit its
    header field, and the exception leaves the log file and an animation
    file of two bytes; a face whose material index is 127 cannot be
    packed, and the exception leaves the log file, the whole animation
    file and the data file's header. *)
Lemma late_failure_leaves_files_counterexample :
  let scene := {| frame_current := 1; frame_start := 1; frame_end := 1 |} in
  let o := of_int 0 in
  let origin : coord := (o, o, o) in
  let corner i := {| loop_vert_index := i; loop_uv := (o, o) |} in
  let props fmt := {| p_scale := of_int 1; p_flip_model_x := false;
                      p_flip_model_y := false; p_flip_model_z := false;
                      p_flip_uv_u := false; p_flip_uv_v := true;
                      p_export_format_type := fmt |} in
  let big :=
    {| obj_is_mesh := true;
       data_vertices := repeat origin (Z.to_nat 4096);
       material_slots := [];
       evaluated := fun _ => {| bm_verts := repeat origin (Z.to_nat 4096);
                                bm_faces := []; bm_uv_layers := 1 |} |} in
  let tri := {| face_corners := (corner 0, corner 1, corner 2);
                material_index := 127 |} in
  let many_materials :=
    {| obj_is_mesh := true;
       data_vertices := repeat origin 3;
       material_slots := repeat (literal "Hull") 128;
       evaluated := fun _ => {| bm_verts := repeat origin 3;
                                bm_faces := [tri]; bm_uv_layers := 1 |} |} in
  execute LLP64 (props DEUSEX) scene (Some big)
  = (EXCEPTION StructError,
     {| log_txt := true; aniv_3d := Some (le_split 2 1);
        data_3d := None; class_uc := false |}) /\
  exists aniv data,
    execute LLP64 (props UNREAL1) scene (Some many_materials)
    = (EXCEPTION StructError,
       {| log_txt := true; aniv_3d := Some aniv;
          data_3d := Some data; class_uc := false |}) /\
    List.length aniv = 16%nat /\ List.length data = 48%nat.
Proof.
  split; [vm_compute; reflexivity|].
  do 2 eexists. split; [vm_compute; reflexivity|]. split; reflexivity.
Qed.

(** C4, amended: a face of the snapshot always has three vertices (the
    snapshot is triangulated before it is read), so the export is never
    cancelled for a face that is not a triangle.  A cancellation happens
    in one of the three checks made before the log file is opened (frame
    range, object, coordinate range) and leaves no file.  Every other
    failure is an exception raised while the files are written: it leaves
    the log file, the animation file as far as it was written and, when
    the animation file was completed, the data file as far as it was
    written; the class script is written by a finished export only. *)
Theorem failed_export_files :
  (forall poly, List.length (face_loops poly) = 3%nat) /\
  (forall dm props scene ctx,
      fst (execute dm props scene ctx) <> CANCELLED OnlyTriangles) /\
  (forall dm props scene ctx r,
      fst (execute dm props scene ctx) = CANCELLED r ->
      snd (execute dm props scene ctx) = no_files) /\
  (forall dm props scene ctx,
      snd (execute dm props scene ctx) <> no_files ->
      exists mesh_obj,
        ctx = Some mesh_obj /\ reaches_files props scene mesh_obj) /\
  (forall dm props scene mesh_obj e,
      reaches_files props scene mesh_obj ->
      fst (execute dm props scene (Some mesh_obj)) = EXCEPTION e ->
      (exists aniv,
          write_aniv_file dm props scene mesh_obj = (aniv, inr (Raised e)) /\
          snd (execute dm props scene (Some mesh_obj))
          = {| log_txt := true; aniv_3d := Some aniv;
               data_3d := None; class_uc := false |}) \/
      (exists aniv data,
          write_aniv_file dm props scene mesh_obj = (aniv, inl tt) /\
          write_data_file dm props scene mesh_obj = (data, inr (Raised e)) /\
          snd (execute dm props scene (Some mesh_obj))
          = {| log_txt := true; aniv_3d := Some aniv;
               data_3d := Some data; class_uc := false |})) /\
  (forall dm props scene ctx,
      class_uc (snd (execute dm props scene ctx)) = true <->
      fst (execute dm props scene ctx) = FINISHED).
Proof.
  assert (Hcancel : forall dm props scene ctx r,
             fst (execute dm props scene ctx) = CANCELLED r ->
             snd (execute dm props scene ctx) = no_files /\
             r <> OnlyTriangles).
  { intros dm props scene ctx r. unfold execute.
    destruct (0 >=? _).
    { intros H. injection H as <-. split; [reflexivity | discriminate]. }
    destruct ctx as [o|].
    2:{ intros H. injection H as <-. split; [reflexivity | discriminate]. }
    destruct (negb (obj_is_mesh o)).
    { intros H. injection H as <-. split; [reflexivity | discriminate]. }
    destruct (check_mesh _ _) as [[|]|e].
    - destruct (write_aniv_file _ _ _ _) as [a [u|s]] eqn:Ea.
      + destruct (write_data_file _ _ _ _) as [d [u'|s]] eqn:Ed;
          cbn [fst snd]; [discriminate|].
        destruct (write_data_file_stop _ _ _ _ _ _ Ed) as [e ->].
        discriminate.
      + destruct (write_aniv_file_stop _ _ _ _ _ _ Ea) as [e ->].
        cbn [fst]. discriminate.
    - intros H. injection H as <-. split; [reflexivity | discriminate].
    - discriminate. }
  split; [exact face_loops_length|].
  split; [|split; [|split; [exact execute_files_inv|split]]].
  - intros dm props scene ctx H.
    destruct (Hcancel _ _ _ _ _ H) as [_ Hne]. apply Hne. reflexivity.
  - intros dm props scene ctx r H. apply (Hcancel _ _ _ _ _ H).
  - intros dm props scene mesh_obj e Hr.
    rewrite (execute_reaches dm props scene mesh_obj Hr).
    destruct (write_aniv_file dm props scene mesh_obj) as [aniv [[]|s]] eqn:Ea.
    + destruct (write_data_file dm props scene mesh_obj) as [data [[]|s]] eqn:Ed;
        cbn [fst snd]; [discriminate|].
      destruct (write_data_file_stop _ _ _ _ _ _ Ed) as [e' ->].
      cbn [status_of_stop]. intros H. injection H as <-.
      right. exists aniv, data. repeat split.
    + destruct (write_aniv_file_stop _ _ _ _ _ _ Ea) as [e' ->].
      cbn [fst snd status_of_stop]. intros H. injection H as <-.
      left. exists aniv. repeat split.
  - intros dm props scene ctx. unfold execute.
    destruct (0 >=? _); [cbn; split; discriminate|].
    destruct ctx as [o|]; [|cbn; split; discriminate].
    destruct (negb (obj_is_mesh o)); [cbn; split; discriminate|].
    destruct (check_mesh _ _) as [[|]|e]; try (cbn; split; discriminate).
    destruct (write_aniv_file _ _ _ _) as [a [u|s]].
    + destruct (write_data_file _ _ _ _) as [d [u'|s]]; cbn [fst snd class_uc].
      * split; reflexivity.
      * split; [discriminate|]. destruct s; discriminate.
    + cbn [fst snd class_uc]. split; [discriminate|]. destruct s; discriminate.
Qed.

Lemma failed_export_files_witness :
  let props := {| p_scale := of_int 1; p_flip_model_x := false;
                  p_flip_model_y := false; p_flip_model_z := false;
                  p_flip_uv_u := false; p_flip_uv_v := true;
                  p_export_format_type := UNREAL1 |} in
  let scene := {| frame_current := 1; frame_start := 1; frame_end := 1 |} in
  let far : coord := (of_int 0, of_int 128, of_int 0) in
  let mesh_obj :=
    {| obj_is_mesh := true; data_vertices := [far]; material_slots := [];
       evaluated := fun _ => {| bm_verts := [far]; bm_faces := [];
                                bm_uv_layers := 0 |} |} in
  snd (execute LLP64 props scene (Some mesh_obj)) = no_files.
Proof.
  intros props scene far mesh_obj.
  apply (proj1 (proj2 (proj2 failed_export_files))
           LLP64 props scene (Some mesh_obj) CoordinateOutOfBounds).
  vm_compute. reflexivity.
Defined.

(** ** C5: frames of different vertex counts *)

Lemma write_frame_ok (props : Properties) (mesh_obj : MeshObject) (f : Z) :
  (forall co, In co (bm_verts (frame_snapshot props mesh_obj f)) ->
              is_ok (enc_vert (p_export_format_type props)
                       (scale_coord (p_scale props) co)) = true) ->
  write_frame props mesh_obj f = (frame_bytes props mesh_obj f, inl tt).
Proof.
  intros H. unfold write_frame, frame_bytes.
  apply for_each_all_ok. intros co Hin. apply write_vertex_ok, H, Hin.
Qed.

(** C5, as stated, fails: with 10 vertices at the first frame and 11 at
    the second the export finishes, and the animation file holds the
    4-byte header and 21 packed vertices. *)
Lemma frame_count_mismatch_counterexample :
  let props := {| p_scale := of_int 1; p_flip_model_x := false;
                  p_flip_model_y := false; p_flip_model_z := false;
                  p_flip_uv_u := false; p_flip_uv_v := true;
                  p_export_format_type := UNREAL1 |} in
  let scene := {| frame_current := 1; frame_start := 1; frame_end := 2 |} in
  let origin : coord := (of_int 0, of_int 0, of_int 0) in
  let snapshot n := {| bm_verts := repeat origin n; bm_faces := [];
                       bm_uv_layers := 0 |} in
  let mesh_obj :=
    {| obj_is_mesh := true; data_vertices := repeat origin 10;
       material_slots := [];
       evaluated := fun f => if f =? 1 then snapshot 10%nat
                             else snapshot 11%nat |} in
  exists aniv,
    fst (execute LLP64 props scene (Some mesh_obj)) = FINISHED /\
    aniv_3d (snd (execute LLP64 props scene (Some mesh_obj))) = Some aniv /\
    List.length aniv = (4 + 4 * (10 + 11))%nat.
Proof.
  eexists. split; [vm_compute; reflexivity|].
  split; [vm_compute; reflexivity|]. reflexivity.
Qed.

(** C5, amended: the encoder never compares vertex counts.  Once the
    header is written and every vertex of every frame can be packed, the
    animation file is the header followed, frame by frame in order, by the
    packed vertices of that frame's own snapshot, however many they are;
    the header's size field is not consulted, and the animation file is
    never the place of a cancellation (it stops only on an exception). *)
Theorem frames_written_without_count_check (dm : data_model)
    (props : Properties) (scene : Scene) (mesh_obj : MeshObject)
    (hdr : bytes) :
  aniv_header dm props scene mesh_obj = (hdr, inl tt) ->
  all_vertices_pack props scene mesh_obj ->
  write_aniv_file dm props scene mesh_obj
  = (hdr ++ List.concat (map (frame_bytes props mesh_obj) (frame_range scene)),
     inl tt) /\
  (forall f,
      In f (frame_range scene) ->
      Z.of_nat (List.length (frame_bytes props mesh_obj f))
      = Z.of_nat (List.length (bm_verts (frame_snapshot props mesh_obj f)))
        * packed_width (p_export_format_type props)) /\
  (forall bs s,
      write_aniv_file dm props scene mesh_obj = (bs, inr s) ->
      exists e, s = Raised e).
Proof.
  intros Hh Hall.
  assert (Hframe : forall f, In f (frame_range scene) ->
            write_frame props mesh_obj f
            = (frame_bytes props mesh_obj f, inl tt)).
  { intros f Hf. apply write_frame_ok. intros co Hco.
    apply (Hall f co Hf Hco). }
  split; [|split].
  - unfold write_aniv_file.
    rewrite (obind_ok _ _ hdr tt Hh).
    rewrite (for_each_all_ok _ (frame_bytes props mesh_obj) _ Hframe).
    reflexivity.
  - intros f Hf.
    rewrite (write_frame_length _ _ _ _ (Hframe f Hf)).
    unfold frame_snapshot. simpl. now rewrite length_map.
  - intros bs s. apply write_aniv_file_stop.
Qed.

Lemma frames_written_without_count_check_witness :
  let props := {| p_scale := of_int 1; p_flip_model_x := false;
                  p_flip_model_y := false; p_flip_model_z := false;
                  p_flip_uv_u := false; p_flip_uv_v := true;
                  p_export_format_type := UNREAL1 |} in
  let scene := {| frame_current := 1; frame_start := 1; frame_end := 2 |} in
  let v : coord := (of_int 10, of_int (-5), of_int 2) in
  let mesh_obj :=
    {| obj_is_mesh := true; data_vertices := [v];
       material_slots := [];
       evaluated := fun f => {| bm_verts := if f =? 1 then [v] else [v; v];
                                bm_faces := []; bm_uv_layers := 0 |} |} in
  write_aniv_file LLP64 props scene mesh_obj
  = (le_split 2 2 ++ le_split 2 4
     ++ List.concat (map (frame_bytes props mesh_obj) (frame_range scene)),
     inl tt).
Proof.
  intros props scene v mesh_obj.
  rewrite app_assoc.
  apply (frames_written_without_count_check LLP64 props scene mesh_obj).
  - vm_compute. reflexivity.
  - intros f co Hf Hco. simpl in Hf.
    destruct Hf as [<-|[<-|[]]]; simpl in Hco.
    + destruct Hco as [<-|[]]. vm_compute. reflexivity.
    + destruct Hco as [<-|[<-|[]]]; vm_compute; reflexivity.
Defined.

(** ** Rounding in [SpecFloat]

    The facts about [binary_round_aux] that the bounds on the UV bytes
    need: shifting an exact mantissa right yields the quotient and records
    whether anything was lost, rounding to nearest adds at most one unit
    and only when something was lost, and therefore a value not above an
    integer [N < 2^53] rounds to a float not above [N]. *)

Lemma iter_pos_nat {A : Type} (f : A -> A) (p : positive) (x : A) :
  iter_pos f p x = Nat.iter (Pos.to_nat p) f x.
Proof.
  revert x. induction p as [p IH|p IH|]; intros x; simpl iter_pos.
  - rewrite !IH, Pos2Nat.inj_xI, <- Nat.iter_add, <- Nat.iter_succ_r.
    f_equal. lia.
  - rewrite !IH, Pos2Nat.inj_xO, <- Nat.iter_add. f_equal. lia.
  - reflexivity.
Qed.

Lemma shr_1_nonneg (m : Z) (r s : bool) :
  0 <= m ->
  shr_1 {| shr_m := m; shr_r := r; shr_s := s |}
  = {| shr_m := m / 2; shr_r := Z.odd m; shr_s := r || s |}.
Proof.
  intros Hm. rewrite <- Z.div2_div.
  destruct m as [|[p|p|]|p]; try reflexivity. lia.
Qed.

(** [n] right shifts of an exact mantissa: the quotient, and whether
    anything was shifted out. *)
Lemma shr_iter (m0 : Z) (n : nat) :
  0 <= m0 ->
  let mrs := Nat.iter n shr_1 {| shr_m := m0; shr_r := false; shr_s := false |} in
  shr_m mrs = m0 / 2 ^ Z.of_nat n /\
  (shr_r mrs || shr_s mrs = negb (m0 mod 2 ^ Z.of_nat n =? 0)).
Proof.
  intros Hm. induction n as [|n IH].
  - simpl. rewrite Z.div_1_r, Z.mod_1_r. auto.
  - cbv zeta in IH |- *. rewrite Nat.iter_succ.
    destruct (Nat.iter n shr_1 _) as [m r s]. simpl in IH.
    destruct IH as [-> IH].
    assert (H2n : 0 < 2 ^ Z.of_nat n) by (apply Z.pow_pos_nonneg; lia).
    rewrite shr_1_nonneg by (apply Z.div_pos; lia).
    simpl shr_m; simpl shr_r; simpl shr_s.
    rewrite Nat2Z.inj_succ, Z.pow_succ_r by lia.
    split.
    + rewrite Z.mul_comm, Z.div_div by lia. reflexivity.
    + rewrite (Z.mul_comm 2), Z.rem_mul_r by lia.
      pose proof (Z.mod_pos_bound m0 (2 ^ Z.of_nat n) H2n) as Ht.
      pose proof (Zmod_odd (m0 / 2 ^ Z.of_nat n)) as Ho.
      set (P := 2 ^ Z.of_nat n) in *. set (t := m0 mod P) in *.
      rewrite Ho, IH.
      destruct (Z.odd (m0 / P)); destruct (Z.eqb_spec t 0) as [E|E];
        simpl; symmetry;
        first [apply Bool.negb_true_iff, Z.eqb_neq; lia
              |apply Bool.negb_false_iff, Z.eqb_eq; lia].
Qed.

Lemma shr_exact_input (m0 e n : Z) :
  0 <= m0 ->
  let res := shr {| shr_m := m0; shr_r := false; shr_s := false |} e n in
  snd res = e + Z.max 0 n /\
  shr_m (fst res) = m0 / 2 ^ Z.max 0 n /\
  shr_r (fst res) || shr_s (fst res) = negb (m0 mod 2 ^ Z.max 0 n =? 0).
Proof.
  intros Hm. destruct n as [|p|p]; simpl.
  - rewrite Z.add_0_r, Z.div_1_r, Z.mod_1_r. auto.
  - rewrite iter_pos_nat.
    destruct (shr_iter m0 (Pos.to_nat p) Hm) as [H1 H2].
    rewrite positive_nat_Z in H1, H2. auto.
  - rewrite Z.add_0_r, Z.div_1_r, Z.mod_1_r. auto.
Qed.

Lemma round_nearest_even_cases (mrs : shr_record) :
  let m' := round_nearest_even (shr_m mrs) (loc_of_shr_record mrs) in
  shr_m mrs <= m' <= shr_m mrs + 1 /\
  (shr_r mrs || shr_s mrs = false -> m' = shr_m mrs).
Proof.
  destruct mrs as [m [|] [|]]; simpl; try destruct (Z.even m);
    split; try lia; try discriminate; reflexivity.
Qed.

Lemma digits2_bounds (p : positive) :
  2 ^ (Zpos (digits2_pos p) - 1) <= Zpos p < 2 ^ Zpos (digits2_pos p).
Proof.
  induction p as [p IH|p IH|]; simpl digits2_pos.
  - rewrite Pos2Z.inj_succ, (Pos2Z.inj_xI p).
    replace (Z.succ (Zpos (digits2_pos p)) - 1)
      with (Z.succ (Zpos (digits2_pos p) - 1)) by lia.
    rewrite !Z.pow_succ_r by lia. lia.
  - rewrite Pos2Z.inj_succ, (Pos2Z.inj_xO p).
    replace (Z.succ (Zpos (digits2_pos p)) - 1)
      with (Z.succ (Zpos (digits2_pos p) - 1)) by lia.
    rewrite !Z.pow_succ_r by lia. lia.
  - change (1 <= 1 < 2). lia.
Qed.

(** A non-negative integer below [2^k] has at most [k] binary digits. *)
Lemma Zdigits2_le (m k : Z) :
  0 <= m < 2 ^ k -> 0 <= k -> Zdigits2 m <= k.
Proof.
  intros [H0 H1] Hk. destruct m as [|p|p]; simpl; [lia| |lia].
  pose proof (digits2_bounds p) as [Hl _].
  destruct (Z.le_gt_cases (Zpos (digits2_pos p)) k) as [|Hgt]; [assumption|].
  exfalso.
  assert (2 ^ k <= 2 ^ (Zpos (digits2_pos p) - 1))
    by (apply Z.pow_le_mono_r; lia).
  lia.
Qed.

Lemma iter_xO (m d : positive) :
  Zpos (Pos.iter xO m d) = Zpos m * 2 ^ Zpos d.
Proof.
  induction d as [|d IH] using Pos.peano_ind.
  - simpl Pos.iter. rewrite Z.pow_1_r. lia.
  - rewrite Pos.iter_succ, Pos2Z.inj_xO, IH, Pos2Z.inj_succ, Z.pow_succ_r by lia.
    ring.
Qed.

Lemma shl_align_spec (mx : positive) (ex ex' : Z) :
  snd (shl_align mx ex ex') <= ex /\
  Zpos (fst (shl_align mx ex ex'))
  = Zpos mx * 2 ^ (ex - snd (shl_align mx ex ex')).
Proof.
  unfold shl_align. destruct (ex' - ex) as [|d|d] eqn:E; cbn [fst snd].
  - rewrite Z.sub_diag, Z.pow_0_r. lia.
  - rewrite Z.sub_diag, Z.pow_0_r. lia.
  - rewrite iter_xO. replace (ex - ex') with (Zpos d) by lia. lia.
Qed.

(** [shl_align] to a given exponent not above [ex]. *)
Lemma shl_align_le (mx : positive) (ex ez : Z) :
  ez <= ex ->
  Zpos (fst (shl_align mx ex ez)) = Zpos mx * 2 ^ (ex - ez).
Proof.
  intros H. unfold shl_align.
  destruct (ez - ex) as [|d|d] eqn:E; cbn [fst snd].
  - replace (ex - ez) with 0 by lia. rewrite Z.pow_0_r. lia.
  - lia.
  - rewrite iter_xO. replace (ex - ez) with (Zpos d) by lia. lia.
Qed.

(** The rounding lemmas hold for every format; they are used for binary64
    and for the single precision of Blender's vectors. *)
Section Rounding.

Variables (p emx : Z).
Hypothesis p_gt_1 : 1 < p.
Hypothesis p_le_emx : p <= emx.

Lemma fexp_gen_eq (x : Z) : fexp p emx x = Z.max (x - p) (3 - emx - p).
Proof. reflexivity. Qed.

Lemma binary_round_aux_shape_gen (s : bool) (m0 : positive) (e : Z) :
  let n1 := Z.max 0 (fexp p emx (Zdigits2 (Zpos m0) + e) - e) in
  let e1 := e + n1 in
  exists m',
    Zpos m0 / 2 ^ n1 <= m' <= Zpos m0 / 2 ^ n1 + 1 /\
    (Zpos m0 mod 2 ^ n1 = 0 -> m' = Zpos m0 / 2 ^ n1) /\
    let n2 := Z.max 0 (fexp p emx (Zdigits2 m' + e1) - e1) in
    binary_round_aux p emx s (Zpos m0) e loc_Exact =
    match m' / 2 ^ n2 with
    | Z0 => S754_zero s
    | Zpos m'' =>
        if e1 + n2 <=? emx - p then S754_finite s m'' (e1 + n2)
        else S754_infinity s
    | Zneg _ => S754_nan
    end.
Proof.
  intros n1 e1. unfold binary_round_aux, shr_fexp.
  change (shr_record_of_loc (Zpos m0) loc_Exact)
    with {| shr_m := Zpos m0; shr_r := false; shr_s := false |}.
  destruct (shr_exact_input (Zpos m0) e
              (fexp p emx (Zdigits2 (Zpos m0) + e) - e) ltac:(lia))
    as (He1 & Hq & Hrs).
  fold n1 in He1, Hq, Hrs. fold e1 in He1.
  destruct (shr _ e _) as [mrs' e'] eqn:E1. simpl in He1, Hq, Hrs. subst e'.
  destruct (round_nearest_even_cases mrs') as [Hb Hex].
  set (m' := round_nearest_even (shr_m mrs') (loc_of_shr_record mrs')) in *.
  cbv zeta in Hb, Hex.
  assert (H0 : 0 <= Zpos m0 / 2 ^ n1)
    by (apply Z.div_pos; [lia | apply Z.pow_pos_nonneg; lia]).
  exists m'. rewrite <- Hq. split; [exact Hb|]. split.
  - intros Hz. apply Hex. rewrite Hrs, Hz. reflexivity.
  - cbv zeta.
    change (shr_record_of_loc m' loc_Exact)
      with {| shr_m := m'; shr_r := false; shr_s := false |}.
    destruct (shr_exact_input m' e1
                (fexp p emx (Zdigits2 m' + e1) - e1) ltac:(lia))
      as (He2 & Hq2 & _).
    destruct (shr _ e1 _) as [mrs'' e''] eqn:E2. simpl in He2, Hq2.
    subst e''. rewrite Hq2. reflexivity.
Qed.

Lemma binary_round_aux_below_gen (s : bool) (m0 : positive) (e N : Z) :
  e <= 0 -> 0 < N < 2 ^ p -> Zpos m0 <= N * 2 ^ (- e) ->
  binary_round_aux p emx s (Zpos m0) e loc_Exact = S754_zero s \/
  exists m'' e'',
    binary_round_aux p emx s (Zpos m0) e loc_Exact = S754_finite s m'' e''
    /\ e'' <= 0 /\ Zpos m'' <= N * 2 ^ (- e'').
Proof.
  intros He HN Hm.
  destruct (binary_round_aux_shape_gen s m0 e) as (m' & Hb & Hex & Heq).
  cbv zeta in Hb, Hex, Heq. rewrite Heq. clear Heq.
  rewrite !fexp_gen_eq in *.
  set (d := Zdigits2 (Zpos m0)) in *.
  assert (Hlt : forall k, k <= 0 -> N * 2 ^ (- k) < 2 ^ (p - k)).
  { intros k Hk. replace (p - k) with (p + - k) by lia.
    rewrite Z.pow_add_r by lia.
    apply Z.mul_lt_mono_pos_r; [apply Z.pow_pos_nonneg; lia | lia]. }
  assert (Hd : d + e <= p).
  { enough (d <= p - e) by lia.
    apply Zdigits2_le; [|lia]. specialize (Hlt e He). lia. }
  set (n1 := Z.max 0 (Z.max (d + e - p) (3 - emx - p) - e)) in *.
  set (e1 := e + n1) in *.
  assert (Hn1 : 0 <= n1) by (subst n1; lia).
  assert (He1 : e1 <= 0) by (subst e1 n1; lia).
  set (K := N * 2 ^ (- e1)).
  assert (HK : N * 2 ^ (- e) = K * 2 ^ n1).
  { subst K. replace (- e) with (- e1 + n1) by (subst e1; lia).
    rewrite Z.pow_add_r by lia. ring. }
  assert (Hp1 : 0 < 2 ^ n1) by (apply Z.pow_pos_nonneg; lia).
  assert (Hq : Zpos m0 / 2 ^ n1 <= K).
  { apply Z.div_le_upper_bound; [lia|]. rewrite Z.mul_comm. lia. }
  assert (Hq0 : 0 <= Zpos m0 / 2 ^ n1) by (apply Z.div_pos; lia).
  assert (Hm' : 0 <= m' <= K).
  { split; [lia|].
    destruct (Z.eq_dec (Zpos m0 mod 2 ^ n1) 0) as [Hz|Hnz].
    - rewrite (Hex Hz). exact Hq.
    - enough (Zpos m0 / 2 ^ n1 < K) by lia.
      apply Z.div_lt_upper_bound; [lia|].
      assert (Zpos m0 <> K * 2 ^ n1).
      { intros Heq. apply Hnz. rewrite Heq. apply Z.mod_mul. lia. }
      lia. }
  set (d' := Zdigits2 m') in *.
  assert (Hd' : d' + e1 <= p).
  { enough (d' <= p - e1) by lia.
    apply Zdigits2_le; [|lia]. specialize (Hlt e1 He1). fold K in Hlt. lia. }
  set (n2 := Z.max 0 (Z.max (d' + e1 - p) (3 - emx - p) - e1)) in *.
  assert (Hn2 : 0 <= n2) by (subst n2; lia).
  assert (He2 : e1 + n2 <= 0) by (subst n2; lia).
  assert (Hp2 : 0 < 2 ^ n2) by (apply Z.pow_pos_nonneg; lia).
  assert (HK2 : K = N * 2 ^ (- (e1 + n2)) * 2 ^ n2).
  { subst K. replace (- e1) with (- (e1 + n2) + n2) by lia.
    rewrite Z.pow_add_r by lia. ring. }
  assert (Hm'' : 0 <= m' / 2 ^ n2 <= N * 2 ^ (- (e1 + n2))).
  { split; [apply Z.div_pos; lia|].
    apply Z.div_le_upper_bound; [lia|]. rewrite Z.mul_comm. lia. }
  destruct (m' / 2 ^ n2) as [|m''|m''] eqn:E; [left; reflexivity| |lia].
  right. exists m'', (e1 + n2).
  replace (e1 + n2 <=? emx - p) with true
    by (symmetry; apply Z.leb_le; lia).
  split; [reflexivity|]. split; lia.
Qed.

Lemma binary_round_below_gen (s : bool) (m : positive) (e N : Z) :
  e <= 0 -> 0 < N < 2 ^ p -> Zpos m <= N * 2 ^ (- e) ->
  binary_round p emx s m e = S754_zero s \/
  exists m'' e'',
    binary_round p emx s m e = S754_finite s m'' e''
    /\ e'' <= 0 /\ Zpos m'' <= N * 2 ^ (- e'').
Proof.
  intros He HN Hm. unfold binary_round.
  pose proof (shl_align_spec m e (fexp p emx (Zpos (digits2_pos m) + e)))
    as [Hle Hmz].
  destruct (shl_align m e _) as [mz ez]. cbn [fst snd] in Hle, Hmz.
  apply binary_round_aux_below_gen; [lia | exact HN |].
  rewrite Hmz.
  replace (- ez) with (- e + (e - ez)) by lia.
  rewrite Z.pow_add_r, Z.mul_assoc by lia.
  apply Z.mul_le_mono_nonneg_r; [apply Z.pow_nonneg; lia | exact Hm].
Qed.

End Rounding.

Lemma binary_round_aux_shape (s : bool) (m0 : positive) (e : Z) :
  let n1 := Z.max 0 (fexp prec emax (Zdigits2 (Zpos m0) + e) - e) in
  let e1 := e + n1 in
  exists m',
    Zpos m0 / 2 ^ n1 <= m' <= Zpos m0 / 2 ^ n1 + 1 /\
    (Zpos m0 mod 2 ^ n1 = 0 -> m' = Zpos m0 / 2 ^ n1) /\
    let n2 := Z.max 0 (fexp prec emax (Zdigits2 m' + e1) - e1) in
    binary_round_aux prec emax s (Zpos m0) e loc_Exact =
    match m' / 2 ^ n2 with
    | Z0 => S754_zero s
    | Zpos m'' =>
        if e1 + n2 <=? emax - prec then S754_finite s m'' (e1 + n2)
        else S754_infinity s
    | Zneg _ => S754_nan
    end.
Proof. exact (binary_round_aux_shape_gen prec emax s m0 e). Qed.

Lemma fexp_eq (x : Z) : fexp prec emax x = Z.max (x - 53) (-1074).
Proof. reflexivity. Qed.

Lemma binary_round_aux_below (s : bool) (m0 : positive) (e N : Z) :
  e <= 0 -> 0 < N < 2 ^ 53 -> Zpos m0 <= N * 2 ^ (- e) ->
  binary_round_aux prec emax s (Zpos m0) e loc_Exact = S754_zero s \/
  exists m'' e'',
    binary_round_aux prec emax s (Zpos m0) e loc_Exact = S754_finite s m'' e''
    /\ e'' <= 0 /\ Zpos m'' <= N * 2 ^ (- e'').
Proof.
  apply (binary_round_aux_below_gen prec emax); unfold prec, emax; lia.
Qed.

Lemma binary_round_below (s : bool) (m : positive) (e N : Z) :
  e <= 0 -> 0 < N < 2 ^ 53 -> Zpos m <= N * 2 ^ (- e) ->
  binary_round prec emax s m e = S754_zero s \/
  exists m'' e'',
    binary_round prec emax s m e = S754_finite s m'' e''
    /\ e'' <= 0 /\ Zpos m'' <= N * 2 ^ (- e'').
Proof.
  apply (binary_round_below_gen prec emax); unfold prec, emax; lia.
Qed.

(** ** Bounds on float operations *)

(** Normalising an integer of magnitude at most [N * 2^(-e)]. *)
Lemma binary_normalize_below (m e N : Z) (sz : bool) :
  e <= 0 -> 0 < N < 2 ^ 53 -> Z.abs m <= N * 2 ^ (- e) ->
  mag_below N (binary_normalize prec emax m e sz) /\
  (0 <= m -> sz = false -> nonneg (binary_normalize prec emax m e sz)).
Proof.
  intros He HN Hm. destruct m as [|p|p]; simpl.
  - auto.
  - destruct (binary_round_below false p e N He HN Hm)
      as [->|(m'' & e'' & -> & H)]; simpl; auto.
  - destruct (binary_round_below true p e N He HN Hm)
      as [->|(m'' & e'' & -> & H)]; simpl; split; auto; lia.
Qed.

Lemma to_int_below (N : Z) (x : float) :
  0 <= N -> nonneg x -> mag_below N x ->
  exists b, to_int x = Ok b /\ 0 <= b <= N.
Proof.
  intros HN. destruct x as [s|s| |s m e]; simpl; try contradiction.
  - intros _ _. exists 0. split; [reflexivity | lia].
  - destruct s; [contradiction|]. intros _ [He Hm].
    eexists. split; [reflexivity|]. cbn [cond_Zopp].
    destruct e as [|k|k]; [| lia |].
    + rewrite Z.shiftl_0_r. simpl in Hm. lia.
    + rewrite Z.shiftr_div_pow2 by lia.
      change (- Z.neg k) with (Zpos k) in Hm.
      assert (0 < 2 ^ Zpos k) by (apply Z.pow_pos_nonneg; lia).
      split; [apply Z.div_pos; lia|].
      apply Z.div_le_upper_bound; [lia|]. rewrite Z.mul_comm. exact Hm.
Qed.

Lemma of_int_1 : of_int 1 = S754_finite false (2 ^ 52) (-52).
Proof. reflexivity. Qed.

Lemma of_int_255 : of_int 255 = S754_finite false (255 * 2 ^ 45) (-45).
Proof. reflexivity. Qed.

(** [x * 255] stays in [[0, 255]] when [x] is in [[0, 1]]. *)
Lemma mul_255_below (w : float) :
  nonneg w -> mag_below 1 w ->
  nonneg (mul w (of_int 255)) /\ mag_below 255 (mul w (of_int 255)).
Proof.
  rewrite of_int_255.
  destruct w as [s|s| |s m e]; try contradiction.
  - intros _ _. split; exact I.
  - destruct s; [contradiction|]. intros _ [He Hm].
    unfold mul, SFmul. cbn [xorb].
    destruct (binary_round_aux_below false (m * (255 * 2 ^ 45)) (e + -45) 255)
      as [->|(m'' & e'' & -> & H)]; try lia.
    + replace (- (e + -45)) with (- e + 45) by lia.
      rewrite Z.pow_add_r, Pos2Z.inj_mul by lia.
      change (Zpos (255 * 2 ^ 45)) with (255 * 2 ^ 45).
      assert (0 < 2 ^ (- e)) by (apply Z.pow_pos_nonneg; lia).
      nia.
    + split; exact I.
    + split; [exact I | exact H].
Qed.

(** The aligned difference [1 - |x|] for a magnitude at most 1. *)
Lemma one_minus_aligned (m : positive) (e : Z) :
  e <= 0 -> Zpos m <= 1 * 2 ^ (- e) ->
  let ez := Z.min (-52) e in
  let a := Zpos (fst (shl_align (2 ^ 52) (-52) ez)) in
  let b := Zpos (fst (shl_align m e ez)) in
  ez <= 0 /\ 0 <= a - b /\ Z.abs (a - b) <= 1 * 2 ^ (- ez).
Proof.
  intros He Hm ez a b. subst a b.
  rewrite !shl_align_le by (subst ez; lia).
  assert (Hez : ez <= 0) by (subst ez; lia).
  change (Zpos (2 ^ 52)) with (2 ^ 52).
  rewrite <- Z.pow_add_r by (subst ez; lia).
  replace (52 + (-52 - ez)) with (- ez) by lia.
  assert (Hb : Zpos m * 2 ^ (e - ez) <= 2 ^ (- ez)).
  { replace (- ez) with (- e + (e - ez)) by lia.
    rewrite Z.pow_add_r by (subst ez; lia).
    apply Z.mul_le_mono_nonneg_r; [apply Z.pow_nonneg|]; lia. }
  assert (0 < Zpos m * 2 ^ (e - ez)).
  { apply Z.mul_pos_pos; [lia|]. apply Z.pow_pos_nonneg; subst ez; lia. }
  lia.
Qed.

Lemma sub_1_below (w : float) :
  nonneg w -> mag_below 1 w ->
  nonneg (sub (of_int 1) w) /\ mag_below 1 (sub (of_int 1) w).
Proof.
  rewrite of_int_1.
  destruct w as [s|s| |s m e]; try contradiction.
  - intros _ _. simpl. split; [exact I|]. split; [lia|]. reflexivity.
  - destruct s; [contradiction|]. intros _ [He Hm].
    unfold sub, SFsub. cbn [cond_Zopp].
    destruct (one_minus_aligned m e He Hm) as (Hez & H0 & Habs).
    cbv zeta in Hez, H0, Habs.
    destruct (binary_normalize_below _ (Z.min (-52) e) 1 false Hez
                ltac:(lia) Habs) as [H1 H2].
    split; [apply H2; auto | exact H1].
Qed.

Lemma add_1_below (m : positive) (e : Z) :
  e <= 0 -> Zpos m <= 1 * 2 ^ (- e) ->
  nonneg (add (S754_finite true m e) (of_int 1)) /\
  mag_below 1 (add (S754_finite true m e) (of_int 1)).
Proof.
  intros He Hm. rewrite of_int_1.
  unfold add, SFadd. cbn [cond_Zopp].
  destruct (one_minus_aligned m e He Hm) as (Hez & H0 & Habs).
  cbv zeta in Hez, H0, Habs.
  rewrite (Z.min_comm e (-52)).
  replace (- Zpos (fst (shl_align m e (Z.min (-52) e)))
           + Zpos (fst (shl_align (2 ^ 52) (-52) (Z.min (-52) e))))
    with (Zpos (fst (shl_align (2 ^ 52) (-52) (Z.min (-52) e)))
          - Zpos (fst (shl_align m e (Z.min (-52) e)))) by lia.
  destruct (binary_normalize_below _ (Z.min (-52) e) 1 false Hez
              ltac:(lia) Habs) as [H1 H2].
  split; [apply H2; auto | exact H1].
Qed.

Lemma mod1_below (c : float) :
  is_finite c = true -> nonneg (mod1 c) /\ mag_below 1 (mod1 c).
Proof.
  destruct c as [s|s| |s m e]; try discriminate; intros _.
  - simpl. auto.
  - unfold mod1, fmod1. destruct e as [|k|k]; try (simpl; auto; fail).
    assert (Hr : 0 <= Z.land (Zpos m) (Z.ones (Zpos k)) < 2 ^ Zpos k).
    { rewrite Z.land_ones by lia. apply Z.mod_pos_bound.
      apply Z.pow_pos_nonneg; lia. }
    set (r := Z.land (Zpos m) (Z.ones (Zpos k))) in *.
    assert (Habs : Z.abs (cond_Zopp s r) <= 1 * 2 ^ (- Z.neg k)).
    { change (- Z.neg k) with (Zpos k).
      destruct s; cbn [cond_Zopp]; lia. }
    destruct (binary_normalize_below (cond_Zopp s r) (Z.neg k) 1 s
                ltac:(lia) ltac:(lia) Habs) as [H1 H2].
    destruct (binary_normalize prec emax (cond_Zopp s r) (Z.neg k) s)
      as [s'|s'| |s' m' e'] eqn:E; try contradiction.
    + simpl. auto.
    + destruct s'.
      * destruct H1 as [He' Hm']. apply add_1_below; assumption.
      * split; [exact I | exact H1].
Qed.

(** ** Conversion to an integer *)

Lemma trunc_inject_Z (z : Z) : trunc (inject_Z z) = z.
Proof. unfold trunc. simpl. apply Z.quot_1_r. Qed.

Lemma cond_Zopp_quot (s : bool) (a b : Z) :
  0 <= a -> 0 < b -> Z.quot (cond_Zopp s a) b = cond_Zopp s (a / b).
Proof.
  intros Ha Hb. destruct s; cbn [cond_Zopp].
  - rewrite Z.quot_opp_l, Z.quot_div_nonneg by lia. reflexivity.
  - apply Z.quot_div_nonneg; lia.
Qed.

(** [int(x)] is the truncation toward zero of the value of [x]. *)
Lemma to_int_trunc (x : float) :
  is_finite x = true -> to_int x = Ok (trunc (value x)).
Proof.
  destruct x as [s|s| |s m e]; try discriminate; intros _.
  - reflexivity.
  - unfold to_int, value. f_equal.
    destruct e as [|k|k].
    + rewrite trunc_inject_Z, Z.shiftl_0_r, Z.pow_0_r, Z.mul_1_r. reflexivity.
    + rewrite trunc_inject_Z, Z.shiftl_mul_pow2 by lia. reflexivity.
    + unfold trunc. cbn [Qnum Qden].
      rewrite Pos2Z.inj_pow, cond_Zopp_quot, Z.shiftr_div_pow2 by
        (try apply Z.pow_pos_nonneg; lia).
      reflexivity.
Qed.

Lemma to_int_raises (x : float) :
  is_finite x = false -> exists e, to_int x = Raise e.
Proof.
  destruct x; try discriminate; intros _; simpl; eauto.
Qed.

(** [trunc] rounds toward zero: it never moves away from zero and moves
    by less than one. *)
Lemma trunc_toward_zero (q : Q) :
  ((0 <= q)%Q -> (inject_Z (trunc q) <= q)%Q /\ (q < inject_Z (trunc q + 1))%Q
                 /\ 0 <= trunc q) /\
  ((q <= 0)%Q -> (inject_Z (trunc q - 1) < q)%Q /\ (q <= inject_Z (trunc q))%Q
                 /\ trunc q <= 0).
Proof.
  destruct q as [a b]. unfold trunc, Qle, Qlt. cbn [Qnum Qden inject_Z].
  rewrite !Z.mul_1_r.
  pose proof (Z.quot_rem' a (Zpos b)) as Hqr.
  split; intros Ha.
  - pose proof (Z.rem_bound_pos a (Zpos b) ltac:(lia) ltac:(lia)).
    assert (0 <= Z.quot a (Zpos b)) by (apply Z.quot_pos; lia).
    nia.
  - pose proof (Z.rem_bound_pos_neg a (Zpos b) ltac:(lia) ltac:(lia)).
    assert (Z.quot a (Zpos b) <= 0).
    { rewrite <- (Z.opp_involutive a), Z.quot_opp_l by lia.
      enough (0 <= Z.quot (- a) (Zpos b)) by lia. apply Z.quot_pos; lia. }
    nia.
Qed.

(** The value of a float within [[0, N]]. *)
Lemma below_value (N : Z) (x : float) :
  nonneg x -> mag_below N x -> 0 <= N ->
  (0 <= value x)%Q /\ (value x <= inject_Z N)%Q.
Proof.
  destruct x as [s|s| |s m e]; try contradiction.
  - intros _ _ HN. simpl. unfold Qle. simpl. lia.
  - destruct s; [contradiction|]. intros _ [He Hm] HN.
    unfold value. cbn [cond_Zopp]. destruct e as [|k|k]; [| lia |].
    + rewrite Z.pow_0_r, Z.mul_1_r in *. simpl in Hm.
      unfold Qle. simpl. lia.
    + change (- Z.neg k) with (Zpos k) in Hm.
      unfold Qle. cbn [Qnum Qden inject_Z].
      rewrite Pos2Z.inj_pow. lia.
Qed.

(** ** C6: the range validator *)

Lemma compare_cont_opp (a b : positive) :
  Pos.compare_cont Eq a b = CompOpp (Pos.compare_cont Eq b a).
Proof.
  change (Pos.compare_cont Eq a b) with (Pos.compare a b).
  change (Pos.compare_cont Eq b a) with (Pos.compare b a).
  apply Pos.compare_antisym.
Qed.

(** On numbers, the validator's two comparisons say that [|c| < maxv]
    fails. *)
Lemma out_of_bounds_within (maxv c : float) :
  is_nan maxv = false -> is_nan c = false ->
  out_of_bounds maxv c = negb (within_range maxv c).
Proof.
  unfold out_of_bounds, within_range, ge, le, lt, neg, SFleb, SFltb.
  destruct maxv as [sm|sm| |sm mm em]; try discriminate;
    destruct c as [sc|sc| |sc mc ec]; try discriminate; intros _ _;
    try (destruct sm, sc; reflexivity).
  destruct sm, sc; cbn [SFopp SFabs SFcompare negb]; try reflexivity.
  - apply orb_true_r.
  - destruct (ec ?= em); try reflexivity.
    destruct (Pos.compare_cont Eq mc mm); reflexivity.
  - rewrite (Z.compare_antisym em ec), (compare_cont_opp mc mm).
    destruct (em ?= ec); cbn [CompOpp]; try reflexivity.
    destruct (Pos.compare_cont Eq mm mc); reflexivity.
Qed.

(** A NaN passes both comparisons. *)
Lemma out_of_bounds_nan (maxv : float) : out_of_bounds maxv nan = false.
Proof. destruct maxv as [s|s| |s m e]; try destruct s; reflexivity. Qed.

Lemma out_of_bounds_pass (maxv c : float) :
  is_nan maxv = false ->
  out_of_bounds maxv c = false <-> nan_or_within maxv c.
Proof.
  intros Hm. unfold nan_or_within.
  destruct (is_nan c) eqn:Ec.
  - destruct c; try discriminate. rewrite out_of_bounds_nan. tauto.
  - rewrite (out_of_bounds_within maxv c Hm Ec).
    destruct (within_range maxv c); simpl; split; auto.
    + intros [H|H]; discriminate.
Qed.

Lemma vertex_passes_iff (maxv : float) (x y z : float) :
  is_nan maxv = false ->
  vertex_passes maxv (x, y, z) <->
  out_of_bounds maxv x = false /\ out_of_bounds maxv y = false /\
  out_of_bounds maxv z = false.
Proof.
  intros Hm. rewrite !(out_of_bounds_pass maxv) by exact Hm.
  unfold vertex_passes. split.
  - intros H. exact (conj (H AxisX) (conj (H AxisY) (H AxisZ))).
  - intros (Hx & Hy & Hz) []; assumption.
Qed.

(** What a run of the loop from index [i] returns. *)
Lemma check_vertices_in_bounds (maxv : float) (vs : list coord) (i : nat) :
  is_nan maxv = false ->
  check_vertices maxv i vs = InBounds <-> Forall (vertex_passes maxv) vs.
Proof.
  intros Hm. revert i. induction vs as [|[[x y] z] vs IH]; intros i.
  - simpl. split; auto.
  - cbn [check_vertices]. rewrite Forall_cons_iff, vertex_passes_iff by exact Hm.
    destruct (out_of_bounds maxv x); [split; [discriminate | intros [(?&?&?) _]; discriminate]|].
    destruct (out_of_bounds maxv y); [split; [discriminate | intros [(?&?&?) _]; discriminate]|].
    destruct (out_of_bounds maxv z); [split; [discriminate | intros [(?&?&?) _]; discriminate]|].
    rewrite IH. tauto.
Qed.

Lemma check_vertices_report (maxv : float) (vs : list coord) (i j : nat)
    (a : axis) (co : coord) :
  is_nan maxv = false ->
  check_vertices maxv i vs = OutOfBounds j a co ->
  (i <= j)%nat /\
  nth_error vs (j - i) = Some co /\
  ~ nan_or_within maxv (component a co) /\
  (forall a', axis_before a' a -> nan_or_within maxv (component a' co)) /\
  Forall (vertex_passes maxv) (firstn (j - i) vs).
Proof.
  intros Hm. revert i. induction vs as [|[[x y] z] vs IH]; intros i.
  - discriminate.
  - cbn [check_vertices].
    destruct (out_of_bounds maxv x) eqn:Ex.
    { intros H. injection H as <- <- <-. rewrite Nat.sub_diag. simpl.
      repeat split; auto.
      - rewrite <- out_of_bounds_pass by exact Hm. congruence.
      - intros []; contradiction. }
    destruct (out_of_bounds maxv y) eqn:Ey.
    { intros H. injection H as <- <- <-. rewrite Nat.sub_diag. simpl.
      repeat split; auto.
      - rewrite <- out_of_bounds_pass by exact Hm. congruence.
      - intros []; try contradiction. intros _.
        now apply out_of_bounds_pass. }
    destruct (out_of_bounds maxv z) eqn:Ez.
    { intros H. injection H as <- <- <-. rewrite Nat.sub_diag. simpl.
      repeat split; auto.
      - rewrite <- out_of_bounds_pass by exact Hm. congruence.
      - intros []; try contradiction; intros _;
          now apply out_of_bounds_pass. }
    intros H. destruct (IH _ H) as (Hle & Hnth & Hbad & Hax & Hall).
    replace (j - i)%nat with (S (j - S i)) by lia.
    repeat split; auto; try lia.
    cbn [firstn]. constructor; [|exact Hall].
    apply vertex_passes_iff; auto.
Qed.

(** *** The bound [128 / scale] is a number *)

Lemma shr_nonneg (mrs : shr_record) (e n : Z) :
  0 <= shr_m mrs -> 0 <= shr_m (fst (shr mrs e n)).
Proof.
  intros H. destruct n as [|p|p]; cbn [shr fst]; try exact H.
  rewrite iter_pos_nat.
  induction (Pos.to_nat p) as [|k IH]; [exact H|].
  rewrite Nat.iter_succ. destruct (Nat.iter k shr_1 mrs) as [m r s].
  cbn [shr_m] in IH. rewrite shr_1_nonneg by exact IH. cbn [shr_m].
  apply Z.div_pos; lia.
Qed.

Lemma shr_record_of_loc_m (m : Z) (l : location) :
  shr_m (shr_record_of_loc m l) = m.
Proof. destruct l as [|[]]; reflexivity. Qed.

Lemma binary_round_aux_not_nan (s : bool) (m e : Z) (l : location) :
  0 <= m -> is_nan (binary_round_aux prec emax s m e l) = false.
Proof.
  intros Hm. unfold binary_round_aux, shr_fexp.
  pose proof (shr_nonneg (shr_record_of_loc m l) e
                (fexp prec emax (Zdigits2 m + e) - e)) as H1.
  rewrite shr_record_of_loc_m in H1. specialize (H1 Hm).
  destruct (shr (shr_record_of_loc m l) e _) as [mrs' e'].
  cbn [fst] in H1.
  pose proof (round_nearest_even_cases mrs') as [[H2 _] _].
  set (m' := round_nearest_even (shr_m mrs') (loc_of_shr_record mrs')) in *.
  pose proof (shr_nonneg (shr_record_of_loc m' loc_Exact) e'
                (fexp prec emax (Zdigits2 m' + e') - e')) as H3.
  rewrite shr_record_of_loc_m in H3. specialize (H3 ltac:(lia)).
  destruct (shr (shr_record_of_loc m' loc_Exact) e' _) as [mrs'' e''].
  cbn [fst] in H3.
  destruct (shr_m mrs'') as [|p|p]; [reflexivity| |lia].
  destruct (e'' <=? emax - prec); reflexivity.
Qed.

Lemma div_128_not_nan (scale maxv : float) :
  is_nan scale = false ->
  div (of_int 128) scale = Ok maxv ->
  is_nan maxv = false.
Proof.
  intros Hs. unfold div.
  change (of_int 128) with (S754_finite false (2 ^ 52) (-45)).
  destruct scale as [s|s| |s m e]; try discriminate;
    intros H; injection H as <-; try reflexivity.
  unfold SFdiv, SFdiv_core_binary.
  set (m' := match _ - _ with Zpos _ => _ | Z0 => _ | Zneg _ => _ end).
  assert (Hm' : 0 <= m').
  { subst m'. destruct (_ - _); try lia. apply Z.shiftl_nonneg. lia. }
  pose proof (Z_div_mod m' (Zpos m) ltac:(lia)) as Hdm.
  destruct (Z.div_eucl m' (Zpos m)) as [q r].
  apply binary_round_aux_not_nan. nia.
Qed.

(** C6: the validator lets a vertex with a NaN component pass, against
    the claim and against the comment in [check_mesh], "make sure all
    vertices are in valid range".  For the mesh whose only vertex is
    (NaN, 0, 0) and scale 1.0 the bound is 128 and [|NaN| < 128] does not
    hold, yet [check_mesh] returns [True]: both of its comparisons are
    false on NaN.  The export goes on and stops with [ValueError] when
    the vertex is packed, after the log file and the header of the
    animation file were written. *)
Theorem check_mesh_passes_nan :
  let props := {| p_scale := of_int 1; p_flip_model_x := false;
                  p_flip_model_y := false; p_flip_model_z := false;
                  p_flip_uv_u := false; p_flip_uv_v := true;
                  p_export_format_type := UNREAL1 |} in
  let scene := {| frame_current := 1; frame_start := 1; frame_end := 1 |} in
  let vs : list coord := [(nan, of_int 0, of_int 0)] in
  let mesh_obj :=
    {| obj_is_mesh := true; data_vertices := vs; material_slots := [];
       evaluated := fun _ => {| bm_verts := vs; bm_faces := [];
                                bm_uv_layers := 0 |} |} in
  div (of_int 128) (p_scale props) = Ok (of_int 128) /\
  within_range (of_int 128) nan = false /\
  check_mesh vs (p_scale props) = Ok true /\
  execute LLP64 props scene (Some mesh_obj)
  = (EXCEPTION ValueError,
     {| log_txt := true; aniv_3d := Some (le_split 2 1 ++ le_split 2 4);
        data_3d := None; class_uc := false |}).
Proof. repeat split; vm_compute; reflexivity. Qed.

(** The validator in full, for a scale that is a non-zero number: it
    returns [True] if and only if every coordinate component of every
    vertex is NaN or has absolute value strictly less than [128 / scale]
    (the float quotient); otherwise it stops at the first vertex, in index
    order, with a component that is a number and not within that bound,
    axes tested in the order x, y, z, and prints the vertex index, the
    axis and the vertex' coordinates; a failure cancels the export before
    any file is created. *)
Lemma check_mesh_spec (vertices : list coord) (scale maxv : float) :
  is_nan scale = false ->
  div (of_int 128) scale = Ok maxv ->
  (check_mesh vertices scale = Ok true
   <-> Forall (vertex_passes maxv) vertices) /\
  (check_mesh vertices scale = Ok false
   <-> exists i a co,
         check_mesh_report vertices scale = Ok (OutOfBounds i a co)) /\
  (forall i a co,
      check_mesh_report vertices scale = Ok (OutOfBounds i a co) ->
      nth_error vertices i = Some co /\
      ~ nan_or_within maxv (component a co) /\
      (forall a', axis_before a' a -> nan_or_within maxv (component a' co)) /\
      Forall (vertex_passes maxv) (firstn i vertices)) /\
  (forall dm props scene mesh_obj,
      data_vertices mesh_obj = vertices ->
      p_scale props = scale ->
      check_mesh vertices scale = Ok false ->
      snd (execute dm props scene (Some mesh_obj)) = no_files /\
      (0 < frame_end scene - frame_start scene + 1 ->
       obj_is_mesh mesh_obj = true ->
       fst (execute dm props scene (Some mesh_obj))
       = CANCELLED CoordinateOutOfBounds)).
Proof.
  intros Hs Hd.
  pose proof (div_128_not_nan scale maxv Hs Hd) as Hm.
  unfold check_mesh, check_mesh_report. rewrite Hd. cbn [bind].
  split; [|split; [|split]].
  - rewrite <- (check_vertices_in_bounds maxv vertices 0 Hm).
    destruct (check_vertices maxv 0 vertices); split; congruence.
  - destruct (check_vertices maxv 0 vertices) as [|i a co]; split.
    + discriminate.
    + intros (i & a & co & H). discriminate.
    + intros _. exists i, a, co. reflexivity.
    + reflexivity.
  - intros i a co H. injection H as H.
    destruct (check_vertices_report maxv vertices 0 i a co Hm H)
      as (_ & Hnth & Hbad & Hax & Hall).
    rewrite Nat.sub_0_r in Hnth, Hall. auto.
  - intros dm props scene mesh_obj Hv Hp Hc.
    assert (Hc' : check_mesh (data_vertices mesh_obj) (p_scale props)
                  = Ok false).
    { rewrite Hv, Hp. unfold check_mesh, check_mesh_report.
      rewrite Hd. exact Hc. }
    unfold execute. rewrite Hc'.
    split.
    + destruct (0 >=? _); [reflexivity|].
      destruct (negb (obj_is_mesh mesh_obj)); reflexivity.
    + intros Hf Ho.
      replace (0 >=? frame_end scene - frame_start scene + 1) with false
        by (symmetry; rewrite Z.geb_leb; apply Z.leb_gt; lia).
      rewrite Ho. reflexivity.
Qed.

Lemma check_mesh_spec_witness :
  check_mesh [(of_int 10, of_int (-5), of_int 2);
              (of_int 0, of_int 128, of_int 0)] (of_int 1) = Ok false.
Proof.
  apply (proj1 (proj2 (check_mesh_spec
           [(of_int 10, of_int (-5), of_int 2);
            (of_int 0, of_int 128, of_int 0)] (of_int 1) (of_int 128)
           eq_refl eq_refl))).
  exists 1%nat, AxisY, (of_int 0, of_int 128, of_int 0).
  vm_compute. reflexivity.
Defined.

(** ** Multiplying by a power of two is exact *)

Lemma Zdigits2_unique (v d : Z) :
  0 < v -> 2 ^ (d - 1) <= v < 2 ^ d -> 0 < d -> Zdigits2 v = d.
Proof.
  intros Hv [Hl Hu] Hd. destruct v as [|p|p]; try lia. cbn [Zdigits2].
  pose proof (digits2_bounds p) as [Hl' Hu'].
  set (d' := Zpos (digits2_pos p)) in *.
  destruct (Z.lt_trichotomy d' d) as [Hlt|[Heq|Hgt]]; [|exact Heq|]; exfalso.
  - assert (2 ^ d' <= 2 ^ (d - 1)) by (apply Z.pow_le_mono_r; lia). lia.
  - assert (2 ^ d <= 2 ^ (d' - 1)) by (apply Z.pow_le_mono_r; lia). lia.
Qed.

Lemma Zdigits2_shift (m : positive) (j : Z) :
  0 <= j -> Zdigits2 (Zpos m * 2 ^ j) = Zdigits2 (Zpos m) + j.
Proof.
  intros Hj. cbn [Zdigits2].
  pose proof (digits2_bounds m) as [Hl Hu].
  set (d := Zpos (digits2_pos m)) in *.
  assert (Hp : 0 < 2 ^ j) by (apply Z.pow_pos_nonneg; lia).
  apply Zdigits2_unique; [nia | | lia].
  replace (d + j - 1) with (d - 1 + j) by lia.
  rewrite !Z.pow_add_r by lia. nia.
Qed.

(** The value of a finite float, scaled to an integer. *)
Lemma value_scaled (s : bool) (m : positive) (e j : Z) :
  0 <= j -> 0 <= e + j ->
  (value (S754_finite s m e) * inject_Z (2 ^ j)
   == inject_Z (cond_Zopp s (Zpos m) * 2 ^ (e + j)))%Q.
Proof.
  intros Hj Hej. unfold value. destruct e as [|p|p].
  - unfold Qeq. cbn [Qnum Qden Qmult inject_Z].
    rewrite Z.pow_0_r, Z.mul_1_r, Z.add_0_l.
    destruct s; cbn [cond_Zopp]; lia.
  - unfold Qeq. cbn [Qnum Qden Qmult inject_Z].
    rewrite Z.pow_add_r by lia.
    destruct s; cbn [cond_Zopp]; lia.
  - unfold Qeq. cbn [Qnum Qden Qmult inject_Z].
    rewrite Pos.mul_1_r, Pos2Z.inj_pow, Z.mul_1_r.
    replace j with (Z.neg p + j + Zpos p) at 1 by lia.
    rewrite (Z.pow_add_r 2 (Z.neg p + j)) by lia. ring.
Qed.

(** The product of a valid finite float and [2^k], [0 <= k <= 52]: the
    same mantissa re-aligned, or an infinity on overflow. *)
Lemma mul_pow2_shape (s : bool) (mx : positive) (ex k : Z) :
  0 <= k <= 52 ->
  bounded prec emax mx ex = true ->
  let f := fexp prec emax (Zdigits2 (Zpos mx) + ex + k) in
  ex <= f <= ex + k /\
  mul (S754_finite s mx ex) (S754_finite false (2 ^ 52) (k - 52)) =
  if f <=? emax - prec
  then S754_finite s (Z.to_pos (Zpos mx * 2 ^ (ex + k - f))) f
  else S754_infinity s.
Proof.
  intros Hk Hb f.
  unfold bounded, canonical_mantissa in Hb.
  apply andb_prop in Hb as [Hc He].
  apply Z.eqb_eq in Hc. apply Z.leb_le in He. rewrite fexp_eq in Hc.
  assert (Hf : ex <= f <= ex + k).
  { subst f. rewrite fexp_eq. cbn [Zdigits2]. lia. }
  split; [exact Hf|].
  unfold mul, SFmul. rewrite xorb_false_r.
  destruct (binary_round_aux_shape s (mx * 2 ^ 52) (ex + (k - 52)))
    as (m' & _ & Hex & Heq).
  cbv zeta in Hex, Heq. rewrite Heq. clear Heq.
  rewrite Pos2Z.inj_mul in *. change (Zpos (2 ^ 52)) with (2 ^ 52) in *.
  rewrite (Zdigits2_shift mx 52) in * by lia.
  replace (Zdigits2 (Zpos mx) + 52 + (ex + (k - 52)))
    with (Zdigits2 (Zpos mx) + ex + k) in * by lia.
  fold f in Hex |- *.
  set (n1 := Z.max 0 (f - (ex + (k - 52)))) in *.
  assert (Hn1 : n1 = 52 - (ex + k - f)) by (subst n1; lia).
  assert (Hsplit : Zpos mx * 2 ^ 52 = Zpos mx * 2 ^ (ex + k - f) * 2 ^ n1).
  { rewrite <- Z.mul_assoc, <- Z.pow_add_r by lia. f_equal. f_equal. lia. }
  assert (Hp : 0 < 2 ^ n1) by (apply Z.pow_pos_nonneg; lia).
  rewrite Hsplit, Z.mod_mul, Z.div_mul in Hex by lia.
  specialize (Hex eq_refl). subst m'.
  rewrite (Zdigits2_shift mx (ex + k - f)) by lia.
  replace (Zdigits2 (Zpos mx) + (ex + k - f) + (ex + (k - 52) + n1))
    with (Zdigits2 (Zpos mx) + ex + k) by lia.
  fold f.
  replace (ex + (k - 52) + n1) with f by lia.
  rewrite Z.sub_diag, Z.max_id, Z.pow_0_r, Z.div_1_r, Z.add_0_r.
  assert (Hpos : 0 < Zpos mx * 2 ^ (ex + k - f)).
  { apply Z.mul_pos_pos; [lia | apply Z.pow_pos_nonneg; lia]. }
  destruct (Zpos mx * 2 ^ (ex + k - f)) as [|p|p] eqn:E; try lia.
  reflexivity.
Qed.

Lemma mul_pow2_value (x : float) (k : Z) :
  0 <= k <= 52 ->
  valid x = true ->
  is_finite (mul x (S754_finite false (2 ^ 52) (k - 52))) = true ->
  (value (mul x (S754_finite false (2 ^ 52) (k - 52)))
   == value x * inject_Z (2 ^ k))%Q.
Proof.
  intros Hk Hv Hfin. destruct x as [s|s| |s mx ex]; try discriminate.
  - unfold Qeq. simpl. reflexivity.
  - unfold valid in Hv. cbn [valid_binary] in Hv.
    destruct (mul_pow2_shape s mx ex k Hk Hv) as [Hf Heq].
    cbv zeta in Hf, Heq. rewrite Heq in Hfin |- *. clear Heq.
    set (f := fexp prec emax (Zdigits2 (Zpos mx) + ex + k)) in *.
    destruct (f <=? emax - prec); [|discriminate].
    set (j := Z.max 0 (- ex)).
    assert (Hj : 0 <= j) by (subst j; lia).
    assert (Hp : 0 < 2 ^ j) by (apply Z.pow_pos_nonneg; lia).
    apply (Qmult_inj_r _ _ (inject_Z (2 ^ j))).
    { unfold Qeq. simpl. lia. }
    rewrite value_scaled by (subst j; lia).
    rewrite <- Qmult_assoc, (Qmult_comm (inject_Z (2 ^ k))), Qmult_assoc.
    rewrite value_scaled by (subst j; lia).
    rewrite <- inject_Z_mult.
    assert (Hpos : 0 < Zpos mx * 2 ^ (ex + k - f)).
    { apply Z.mul_pos_pos; [lia | apply Z.pow_pos_nonneg; lia]. }
    rewrite Z2Pos.id by exact Hpos.
    replace (cond_Zopp s (Zpos mx * 2 ^ (ex + k - f)) * 2 ^ (f + j))
      with (cond_Zopp s (Zpos mx) * 2 ^ (ex + j) * 2 ^ k); [reflexivity|].
    replace (f + j) with ((ex + j) + k - (ex + k - f)) by lia.
    set (a := ex + k - f) in *. set (b := ex + j) in *.
    assert (Ha : 0 <= a) by (subst a; lia).
    assert (Hb : 0 <= b) by (subst b j; lia).
    replace (b + k - a) with (b + k - a) by lia.
    assert (Hpow : 2 ^ b * 2 ^ k = 2 ^ a * 2 ^ (b + k - a)).
    { rewrite <- !Z.pow_add_r by lia. f_equal. lia. }
    destruct s; cbn [cond_Zopp]; nia.
Qed.

(** [trunc] depends only on the rational number. *)
Lemma trunc_Qeq (p q : Q) : (p == q)%Q -> trunc p = trunc q.
Proof.
  destruct p as [a b], q as [c d]. unfold Qeq, trunc. cbn [Qnum Qden].
  intros H.
  rewrite <- (Z.quot_mul_cancel_r a (Zpos b) (Zpos d)) by lia.
  rewrite <- (Z.quot_mul_cancel_r c (Zpos d) (Zpos b)) by lia.
  rewrite H, (Z.mul_comm (Zpos b)). reflexivity.
Qed.

(** ** Normalising a number that needs no rounding *)

Lemma shl_align_snd (mx : positive) (ex ez : Z) :
  ez <= ex -> snd (shl_align mx ex ez) = ez.
Proof.
  intros H. unfold shl_align.
  destruct (ez - ex) as [|d|d] eqn:E; cbn [snd]; lia.
Qed.

(** A mantissa of at most 53 bits with an exponent in range is re-aligned
    and kept. *)
Lemma binary_round_exact (s : bool) (m : positive) (e : Z) :
  Zdigits2 (Zpos m) <= 53 -> -1074 <= e <= 0 ->
  let f := fexp prec emax (Zdigits2 (Zpos m) + e) in
  f <= e /\
  binary_round prec emax s m e
  = S754_finite s (Z.to_pos (Zpos m * 2 ^ (e - f))) f.
Proof.
  intros Hd He f.
  assert (Hf : f <= e) by (subst f; rewrite fexp_eq; lia).
  split; [exact Hf|].
  unfold binary_round.
  change (Zpos (digits2_pos m)) with (Zdigits2 (Zpos m)). fold f.
  pose proof (shl_align_le m e f Hf) as Hmz.
  pose proof (shl_align_snd m e f Hf) as Hez.
  destruct (shl_align m e f) as [mz ez]. cbn [fst snd] in Hmz, Hez. subst ez.
  destruct (binary_round_aux_shape s mz f) as (m' & _ & Hex & Heq).
  cbv zeta in Hex, Heq. rewrite Heq. clear Heq.
  rewrite Hmz in *.
  rewrite (Zdigits2_shift m (e - f)) in * by lia.
  replace (Zdigits2 (Zpos m) + (e - f) + f) with (Zdigits2 (Zpos m) + e)
    in * by lia.
  fold f in Hex |- *.
  rewrite Z.sub_diag, Z.max_id, Z.pow_0_r, Z.mod_1_r, Z.div_1_r in Hex.
  specialize (Hex eq_refl). subst m'.
  rewrite Z.sub_diag, Z.max_id, Z.add_0_r.
  rewrite (Zdigits2_shift m (e - f)) by lia.
  replace (Zdigits2 (Zpos m) + (e - f) + f) with (Zdigits2 (Zpos m) + e)
    by lia.
  fold f. rewrite Z.sub_diag, Z.max_id, Z.pow_0_r, Z.div_1_r, Z.add_0_r.
  assert (Hpos : 0 < Zpos m * 2 ^ (e - f)).
  { apply Z.mul_pos_pos; [lia | apply Z.pow_pos_nonneg; lia]. }
  destruct (Zpos m * 2 ^ (e - f)) as [|q|q] eqn:E; try lia.
  replace (f <=? emax - prec) with true
    by (symmetry; apply Z.leb_le; unfold emax, prec; lia).
  reflexivity.
Qed.

Lemma binary_round_exact_value (s : bool) (m : positive) (k : positive) :
  Zdigits2 (Zpos m) <= 53 -> -1074 <= Zneg k ->
  (value (binary_round prec emax s m (Zneg k))
   == Qmake (cond_Zopp s (Zpos m)) (2 ^ k))%Q.
Proof.
  intros Hd He.
  destruct (binary_round_exact s m (Zneg k) Hd ltac:(lia)) as [Hf Heq].
  cbv zeta in Hf, Heq. rewrite Heq. clear Heq.
  set (f := fexp prec emax (Zdigits2 (Zpos m) + Zneg k)) in *.
  assert (Hpos : 0 < Zpos m * 2 ^ (Zneg k - f)).
  { apply Z.mul_pos_pos; [lia | apply Z.pow_pos_nonneg; lia]. }
  apply (Qmult_inj_r _ _ (inject_Z (2 ^ (- f)))).
  { assert (0 < 2 ^ (- f)) by (apply Z.pow_pos_nonneg; lia).
    unfold Qeq. cbn [Qnum Qden inject_Z]. lia. }
  rewrite value_scaled by lia.
  rewrite Z2Pos.id by exact Hpos.
  replace (f + - f) with 0 by lia. rewrite Z.pow_0_r, Z.mul_1_r.
  unfold Qeq. cbn [Qnum Qden Qmult inject_Z].
  rewrite Pos.mul_1_r, Pos2Z.inj_pow, Z.mul_1_r.
  replace (- f) with (Zneg k - f + Zpos k) by lia.
  rewrite Z.pow_add_r by lia.
  destruct s; cbn [cond_Zopp]; ring.
Qed.

(** ** C7: UV bytes *)

Lemma loop_uv_bytes_layer (n : nat) (fu fv : bool) (loop : BMLoop) :
  (0 < n)%nat ->
  loop_uv_bytes n fu fv loop =
  (a <- uv_component_byte fu (fst (loop_uv loop)) ;;
   b <- uv_component_byte fv (snd (loop_uv loop)) ;;
   Ok [a; b]).
Proof.
  intros Hn.
  unfold loop_uv_bytes, uv_component_byte, uv_scaled, uv_wrap_flip, uv_wrap.
  replace (0 <? n)%nat with true by (symmetry; now apply Nat.ltb_lt).
  destruct fu, fv; reflexivity.
Qed.

(** Without a UV layer [uv] is the tuple [(0, 0)] and the first item
    assignment raises. *)
Lemma loop_uv_bytes_no_layer (fu fv : bool) (loop : BMLoop) :
  loop_uv_bytes 0 fu fv loop = Raise TypeError.
Proof. reflexivity. Qed.

(** Storing a number of [[0, N]] in single precision keeps it there. *)
Lemma to_f32_below (N : Z) (x : float) :
  0 < N < 2 ^ 24 -> nonneg x -> mag_below N x ->
  nonneg (to_f32 x) /\ mag_below N (to_f32 x).
Proof.
  intros HN. destruct x as [s|s| |s m e]; try contradiction.
  - intros _ _. split; exact I.
  - destruct s; [contradiction|]. intros _ [He Hm]. unfold to_f32.
    destruct (binary_round_below_gen 24 128 ltac:(lia) ltac:(lia)
                false m e N He HN Hm) as [->|(m'' & e'' & -> & He'' & Hm'')].
    + split; exact I.
    + cbn [cond_Zopp].
      assert (H53 : 0 < N < 2 ^ 53).
      { split; [lia|]. apply Z.lt_trans with (2 ^ 24); [lia|].
        apply Z.pow_lt_mono_r; lia. }
      destruct (binary_normalize_below (Zpos m'') e'' N false He'' H53
                  ltac:(lia)) as [H1 H2].
      split; [apply H2; [lia | reflexivity] | exact H1].
Qed.

Lemma uv_wrap_flip_below (flip : bool) (c : float) :
  is_finite (to_f32 c) = true ->
  nonneg (uv_wrap_flip flip c) /\ mag_below 1 (uv_wrap_flip flip c).
Proof.
  intros Hc. destruct (mod1_below _ Hc) as [H1 H2].
  assert (H24 : 0 < 1 < 2 ^ 24) by (split; reflexivity).
  destruct (to_f32_below 1 _ H24 H1 H2) as [H3 H4].
  unfold uv_wrap_flip, uv_wrap. destruct flip; [|auto].
  destruct (sub_1_below _ H3 H4) as [H5 H6].
  apply to_f32_below; assumption.
Qed.

Lemma uv_component_byte_range (flip : bool) (c : float) :
  is_finite (to_f32 c) = true ->
  exists b,
    uv_component_byte flip c = Ok b /\
    b = trunc (value (uv_scaled flip c)) /\
    0 <= b <= 255.
Proof.
  intros Hc. destruct (uv_wrap_flip_below flip c Hc) as [H1 H2].
  destruct (mul_255_below _ H1 H2) as [H3 H4].
  assert (H24 : 0 < 255 < 2 ^ 24) by (split; reflexivity).
  destruct (to_f32_below 255 _ H24 H3 H4) as [H5 H6].
  fold (uv_scaled flip c) in H5, H6.
  destruct (to_int_below 255 _ ltac:(lia) H5 H6) as (b & Hb & Hr).
  exists b. unfold uv_component_byte. split; [exact Hb|]. split; [|exact Hr].
  rewrite to_int_trunc in Hb.
  - now injection Hb.
  - destruct (uv_scaled flip c); simpl in *; try contradiction; reflexivity.
Qed.

(** *** What [c % 1] is *)

Lemma bounded_canonical (m : positive) (e : Z) :
  bounded prec emax m e = true ->
  fexp prec emax (Zdigits2 (Zpos m) + e) = e /\ e <= emax - prec.
Proof.
  unfold bounded, canonical_mantissa. intros H.
  apply andb_true_iff in H. destruct H as [H1 H2].
  apply Z.eqb_eq in H1. apply Z.leb_le in H2.
  split; [exact H1 | exact H2].
Qed.

Lemma Zdigits2_mono (a : Z) (m : positive) :
  0 <= a <= Zpos m -> Zdigits2 a <= Zdigits2 (Zpos m).
Proof.
  intros Ha. pose proof (digits2_bounds m) as [_ Hm].
  apply Zdigits2_le; [cbn [Zdigits2]; lia | cbn [Zdigits2]; lia].
Qed.

(** C's [fmod(c, 1.0)] keeps the sign of [c]. *)
Lemma fmod1_shape (s : bool) (m : positive) (e : Z) :
  valid (S754_finite s m e) = true ->
  fmod1 (S754_finite s m e) = S754_zero s \/
  exists m' e', fmod1 (S754_finite s m e) = S754_finite s m' e'.
Proof.
  intros Hv. destruct (bounded_canonical m e Hv) as [Hc _].
  rewrite fexp_eq in Hc.
  destruct e as [|q|k]; [left; reflexivity | left; reflexivity |].
  cbn [fmod1].
  assert (Hp : 0 < 2 ^ Zpos k) by (apply Z.pow_pos_nonneg; lia).
  rewrite Z.land_ones by lia.
  pose proof (Z.mod_pos_bound (Zpos m) (2 ^ Zpos k) Hp) as Hr.
  pose proof (Z.div_mod (Zpos m) (2 ^ Zpos k) ltac:(lia)) as Hdm.
  assert (0 <= Zpos m / 2 ^ Zpos k) by (apply Z.div_pos; lia).
  destruct (Zpos m mod 2 ^ Zpos k) as [|r|r] eqn:Er; [| |lia].
  - left. destruct s; reflexivity.
  - right.
    assert (Hd : Zdigits2 (Zpos r) <= 53).
    { apply Z.le_trans with (Zdigits2 (Zpos m)); [|lia].
      apply Zdigits2_mono. nia. }
    destruct (binary_round_exact s r (Zneg k) Hd ltac:(lia)) as [_ Heq].
    cbv zeta in Heq.
    replace (binary_normalize prec emax (cond_Zopp s (Zpos r)) (Zneg k) s)
      with (binary_round prec emax s r (Zneg k)) by (destruct s; reflexivity).
    rewrite Heq. eauto.
Qed.

(** C's [fmod(c, 1.0)] is the fractional part of [c], exactly. *)
Lemma fmod1_value (c : float) :
  valid c = true -> is_finite c = true ->
  (value (fmod1 c) == value c - inject_Z (trunc (value c)))%Q.
Proof.
  intros Hv Hf. destruct c as [s|s| |s m e]; try discriminate.
  - reflexivity.
  - destruct (bounded_canonical m e Hv) as [Hc _]. rewrite fexp_eq in Hc.
    destruct e as [|q|k].
    + cbn [fmod1 value]. rewrite trunc_inject_Z. unfold Qminus.
      rewrite Qplus_opp_r. reflexivity.
    + cbn [fmod1 value]. rewrite trunc_inject_Z. unfold Qminus.
      rewrite Qplus_opp_r. reflexivity.
    + cbn [fmod1].
      assert (Hp : 0 < 2 ^ Zpos k) by (apply Z.pow_pos_nonneg; lia).
      rewrite Z.land_ones by lia.
      pose proof (Z.mod_pos_bound (Zpos m) (2 ^ Zpos k) Hp) as Hr.
      pose proof (Z.div_mod (Zpos m) (2 ^ Zpos k) ltac:(lia)) as Hdm.
      assert (Hq0 : 0 <= Zpos m / 2 ^ Zpos k) by (apply Z.div_pos; lia).
      assert (Htr : trunc (value (S754_finite s m (Zneg k)))
                    = cond_Zopp s (Zpos m / 2 ^ Zpos k)).
      { unfold trunc, value. cbn [Qnum Qden].
        rewrite Pos2Z.inj_pow. apply cond_Zopp_quot; lia. }
      rewrite Htr.
      destruct (Zpos m mod 2 ^ Zpos k) as [|r|r] eqn:Er; [| |lia].
      * replace (cond_Zopp s 0) with 0 by (destruct s; reflexivity).
        cbn [binary_normalize value].
        unfold Qeq, Qminus, Qplus, Qopp. cbn [Qnum Qden inject_Z].
        rewrite Pos2Z.inj_pow.
        destruct s; cbn [cond_Zopp]; nia.
      * assert (Hd : Zdigits2 (Zpos r) <= 53).
        { apply Z.le_trans with (Zdigits2 (Zpos m)); [|lia].
          apply Zdigits2_mono. nia. }
        assert (Hn : binary_normalize prec emax (cond_Zopp s (Zpos r))
                       (Zneg k) s
                     = binary_round prec emax s r (Zneg k)).
        { destruct s; reflexivity. }
        rewrite Hn, (binary_round_exact_value s r k Hd) by lia.
        unfold value, Qeq, Qminus, Qplus, Qopp. cbn [Qnum Qden inject_Z].
        rewrite Pos2Z.inj_pow.
        destruct s; cbn [cond_Zopp]; nia.
Qed.

Lemma value_sign (s : bool) (m : positive) (e : Z) :
  if s then (value (S754_finite s m e) < 0)%Q
  else (0 < value (S754_finite s m e))%Q.
Proof.
  unfold value, Qlt.
  destruct e as [|q|k]; cbn [Qnum Qden inject_Z];
    destruct s; cbn [cond_Zopp]; lia.
Qed.

(** [c % 1] for a float [c], CPython's: the exact fractional part of a
    non-negative [c]; for a negative [c], [+0.0] when [c] is integral and
    else the float sum of the (negative) fractional part and [1.0]. *)
Lemma mod1_cases (c : float) :
  valid c = true -> is_finite c = true ->
  ((0 <= value c)%Q ->
   (value (mod1 c) == value c - inject_Z (trunc (value c)))%Q) /\
  ((value (fmod1 c) < 0)%Q -> mod1 c = add (fmod1 c) (of_int 1)) /\
  ((value (fmod1 c) == 0)%Q -> mod1 c = S754_zero false).
Proof.
  intros Hv Hf. pose proof (fmod1_value c Hv Hf) as Hfm.
  destruct c as [s|s| |s m e]; try discriminate.
  - repeat split; intros H; try reflexivity. discriminate H.
  - unfold mod1.
    destruct (fmod1_shape s m e Hv) as [E|(m' & e' & E)];
      rewrite E in Hfm |- *.
    + split; [intros _; rewrite <- Hfm; reflexivity|].
      split; [intros H; discriminate H | reflexivity].
    + pose proof (value_sign s m e) as Hc.
      pose proof (value_sign s m' e') as Hc'.
      destruct s.
      * split; [|split].
        -- intros H0. exfalso. exact (Qlt_not_le _ _ Hc H0).
        -- reflexivity.
        -- intros H. exfalso. rewrite H in Hc'. discriminate Hc'.
      * split; [|split].
        -- intros _. rewrite <- Hfm. reflexivity.
        -- intros H. exfalso. apply (Qlt_not_le _ _ H).
           apply Qlt_le_weak. exact Hc'.
        -- intros H. exfalso. rewrite H in Hc'. discriminate Hc'.
Qed.

(** C7, as stated, fails.  The component [-2^-60] wraps to [1.0], which is
    not in [[0, 1)], and its byte is 255, a value that [floor(w * 255)]
    cannot take for any [w] in [[0, 1)].  The component 0.2 (in single
    precision) with the flip flag set gives the byte 204, whereas
    [floor((1 - w) * 255)] is 203: the vector stores [1 - w] in single
    precision. *)
Lemma uv_wrap_counterexample :
  let c := S754_finite true (2 ^ 52) (-112) in
  let d := S754_finite false (13421773 * 2 ^ 29) (-55) in
  (valid c = true /\ to_f32 c = c /\
   (value c == - (1 # 2 ^ 60))%Q /\
   uv_wrap c = of_int 1 /\
   loop_uv_bytes 1 false false {| loop_vert_index := 0; loop_uv := (c, c) |}
   = Ok [255; 255] /\
   (forall w : Q, (0 <= w)%Q -> (w < 1)%Q -> trunc (w * 255) <= 254)) /\
  (valid d = true /\ to_f32 d = d /\
   (value d == 13421773 # 2 ^ 26)%Q /\
   (value (uv_wrap d) == value d)%Q /\
   trunc ((1 - value d) * 255) = 203 /\
   loop_uv_bytes 1 true false {| loop_vert_index := 0; loop_uv := (d, d) |}
   = Ok [204; 51]).
Proof.
  split.
  - repeat split; try (vm_compute; reflexivity).
    intros [a b]. unfold Qle, Qlt, trunc. cbn [Qnum Qden Qmult].
    rewrite !Z.mul_1_r, Pos.mul_1_r. intros Ha Hb.
    rewrite Z.quot_div_nonneg by lia.
    enough (a * 255 / Zpos b < 255) by lia.
    apply Z.div_lt_upper_bound; lia.
  - repeat split; vm_compute; reflexivity.
Qed.

(** C7, amended: for a mesh with a UV layer and a face loop whose stored
    UV components are finite, each component [c] is encoded in four steps,
    the UV vector keeping the result of each in single precision:
    [w = c % 1], which lies in [[0, 1]] (the exact fractional part of a
    non-negative [c]; for a negative [c] that is not integral the float
    sum of its fractional part and 1.0, which is 1.0 for a tiny [c]); then
    [1 - w] when the corresponding flip flag is set; then the product with
    255; then the truncation to the byte, which is always in [[0, 255]].
    UV (1.25, -0.25) with no flips wraps to (0.25, 0.75) and yields the
    bytes (63, 191). *)
Theorem uv_bytes_in_range :
  (forall n fu fv loop,
      (0 < n)%nat ->
      is_finite (to_f32 (fst (loop_uv loop))) = true ->
      is_finite (to_f32 (snd (loop_uv loop))) = true ->
      exists a b,
        loop_uv_bytes n fu fv loop = Ok [a; b] /\
        a = trunc (value (uv_scaled fu (fst (loop_uv loop)))) /\
        b = trunc (value (uv_scaled fv (snd (loop_uv loop)))) /\
        0 <= a <= 255 /\ 0 <= b <= 255) /\
  (forall flip c,
      uv_wrap c = to_f32 (mod1 (to_f32 c)) /\
      uv_wrap_flip flip c
      = (if flip then to_f32 (sub (of_int 1) (uv_wrap c)) else uv_wrap c) /\
      uv_scaled flip c = to_f32 (mul (uv_wrap_flip flip c) (of_int 255))) /\
  (forall flip c,
      is_finite (to_f32 c) = true ->
      (0 <= value (uv_wrap c))%Q /\ (value (uv_wrap c) <= 1)%Q /\
      (0 <= value (uv_wrap_flip flip c))%Q /\
      (value (uv_wrap_flip flip c) <= 1)%Q) /\
  (forall c,
      valid c = true -> is_finite c = true ->
      (value (fmod1 c) == value c - inject_Z (trunc (value c)))%Q /\
      ((0 <= value c)%Q ->
       (value (mod1 c) == value c - inject_Z (trunc (value c)))%Q) /\
      ((value (fmod1 c) < 0)%Q -> mod1 c = add (fmod1 c) (of_int 1)) /\
      ((value (fmod1 c) == 0)%Q -> mod1 c = S754_zero false)) /\
  (let u := S754_finite false (5 * 2 ^ 50) (-52) in
   let v := S754_finite true (2 ^ 52) (-54) in
   (value u == 5 # 4)%Q /\ (value v == - (1 # 4))%Q /\
   (value (uv_wrap u) == 1 # 4)%Q /\ (value (uv_wrap v) == 3 # 4)%Q /\
   loop_uv_bytes 1 false false {| loop_vert_index := 0; loop_uv := (u, v) |}
   = Ok [63; 191]).
Proof.
  split; [|split; [|split; [|split]]].
  - intros n fu fv loop Hn Hu Hv.
    destruct (uv_component_byte_range fu _ Hu) as (a & Ea & Ha & Ra).
    destruct (uv_component_byte_range fv _ Hv) as (b & Eb & Hb & Rb).
    exists a, b. rewrite loop_uv_bytes_layer, Ea, Eb by exact Hn.
    repeat split; try assumption; lia.
  - intros flip c. repeat split.
  - intros flip c Hc.
    destruct (uv_wrap_flip_below false c Hc) as [H1 H2].
    destruct (uv_wrap_flip_below flip c Hc) as [H3 H4].
    cbn [uv_wrap_flip] in H1, H2.
    destruct (below_value 1 _ H1 H2 ltac:(lia)) as [V1 V2].
    destruct (below_value 1 _ H3 H4 ltac:(lia)) as [V3 V4].
    repeat split; assumption.
  - intros c Hv Hf. split; [exact (fmod1_value c Hv Hf)|].
    exact (mod1_cases c Hv Hf).
  - repeat split; vm_compute; reflexivity.
Qed.

Lemma uv_bytes_in_range_witness :
  let u := S754_finite false (5 * 2 ^ 50) (-52) in
  let v := S754_finite true (2 ^ 52) (-54) in
  exists a b,
    loop_uv_bytes 1 false true {| loop_vert_index := 0; loop_uv := (u, v) |}
    = Ok [a; b] /\ 0 <= a <= 255 /\ 0 <= b <= 255.
Proof.
  intros u v.
  destruct (proj1 uv_bytes_in_range 1%nat false true
              {| loop_vert_index := 0; loop_uv := (u, v) |})
    as (a & b & H & _ & _ & Ha & Hb).
  - lia.
  - reflexivity.
  - reflexivity.
  - exists a, b. auto.
Defined.

(** The default of C7 for a mesh without UV layer is never reached: the
    first triangle raises [TypeError], after the animation file and the
    data file header were written. *)
Lemma no_uv_layer_raises :
  let props := {| p_scale := of_int 1; p_flip_model_x := false;
                  p_flip_model_y := false; p_flip_model_z := false;
                  p_flip_uv_u := false; p_flip_uv_v := true;
                  p_export_format_type := UNREAL1 |} in
  let scene := {| frame_current := 1; frame_start := 1; frame_end := 1 |} in
  let o := of_int 0 in
  let corner i := {| loop_vert_index := i; loop_uv := (o, o) |} in
  let tri := {| face_corners := (corner 0, corner 1, corner 2);
                material_index := 0 |} in
  let vs : list coord := [(o, o, o); (of_int 1, o, o); (o, of_int 1, o)] in
  let mesh_obj :=
    {| obj_is_mesh := true; data_vertices := vs; material_slots := [];
       evaluated := fun _ => {| bm_verts := vs; bm_faces := [tri];
                                bm_uv_layers := 0 |} |} in
  exists aniv data,
    execute LLP64 props scene (Some mesh_obj)
    = (EXCEPTION TypeError,
       {| log_txt := true; aniv_3d := Some aniv;
          data_3d := Some data; class_uc := false |}) /\
    List.length data = 48%nat.
Proof.
  do 2 eexists. split; [vm_compute; reflexivity | reflexivity].
Qed.

(** ** C1, C9, C10: the vertex packers *)

(** [int(x * 2^k)] for a valid [x] whose product does not overflow. *)
Lemma to_int_mul_pow2 (x : float) (k : Z) :
  0 <= k <= 52 ->
  valid x = true ->
  is_finite (mul x (S754_finite false (2 ^ 52) (k - 52))) = true ->
  to_int (mul x (S754_finite false (2 ^ 52) (k - 52)))
  = Ok (trunc (value x * inject_Z (2 ^ k))).
Proof.
  intros Hk Hv Hf. rewrite to_int_trunc by exact Hf.
  f_equal. apply trunc_Qeq, mul_pow2_value; assumption.
Qed.

(** Three conversions in a row succeed exactly when the three floats are
    finite. *)
Lemma to_int_three_ok_iff (a b c : float) (k : Z -> Z -> Z -> Z) :
  is_ok (x <- to_int a ;; y <- to_int b ;; z <- to_int c ;; Ok (k x y z))
  = true <->
  is_finite a = true /\ is_finite b = true /\ is_finite c = true.
Proof.
  destruct (is_finite a) eqn:Ea.
  - rewrite (to_int_trunc _ Ea). cbn [bind].
    destruct (is_finite b) eqn:Eb.
    + rewrite (to_int_trunc _ Eb). cbn [bind].
      destruct (is_finite c) eqn:Ec.
      * rewrite (to_int_trunc _ Ec). cbn [bind is_ok]. tauto.
      * destruct (to_int_raises _ Ec) as [e ->]. cbn [bind is_ok].
        split; [discriminate | intros (_ & _ & H); discriminate].
    + destruct (to_int_raises _ Eb) as [e ->]. cbn [bind is_ok].
      split; [discriminate | intros (_ & H & _); discriminate].
  - destruct (to_int_raises _ Ea) as [e ->]. cbn [bind is_ok].
    split; [discriminate | intros (H & _); discriminate].
Qed.

(** The packers return exactly when the three scaled components are
    finite. *)
Lemma enc_vert_unreal_ok_iff (x y z : float) :
  is_ok (enc_vert_unreal (x, y, z)) = true <->
  is_finite (mul x (of_int 8)) = true /\
  is_finite (mul y (of_int 8)) = true /\
  is_finite (mul z (of_int 4)) = true.
Proof. apply to_int_three_ok_iff. Qed.

Lemma enc_vert_deusex_ok_iff (x y z : float) :
  is_ok (enc_vert_deusex (x, y, z)) = true <->
  is_finite (mul x (of_int 256)) = true /\
  is_finite (mul y (of_int 256)) = true /\
  is_finite (mul z (of_int 256)) = true.
Proof. apply to_int_three_ok_iff. Qed.

Lemma not_ok_raises {A : Type} (r : result A) :
  is_ok r = false -> exists e, r = Raise e.
Proof. destruct r as [a|e]; [discriminate | intros _; exists e; reflexivity]. Qed.

(** C1, as stated, fails: the claim gives a packed value for every
    triple, but a triple with a NaN or an infinite component has none:
    [int()] raises. *)
Lemma enc_vert_unreal_nan_counterexample :
  let o := of_int 0 in
  enc_vert_unreal (nan, o, o) = Raise ValueError /\
  enc_vert_unreal (o, inf, o) = Raise OverflowError /\
  (forall r, enc_vert_unreal (nan, o, o) <> Ok r).
Proof.
  split; [vm_compute; reflexivity|]. split; [vm_compute; reflexivity|].
  intros r H. vm_compute in H. discriminate H.
Qed.

(** C1, amended: for every triple of floats whose components scaled by 8,
    8 and 4 are finite, Engine packing returns
    [(trunc(x*8) & 0x7FF) | ((trunc(y*8) & 0x7FF) << 11)
     | ((trunc(z*4) & 0x3FF) << 22)], the products being exact and [trunc]
    rounding toward zero; at scale 1 without flips the vertex
    (10.0, -5.0, 2.0) packs to
    [(80 & 0x7ff) | ((-40 & 0x7ff) << 11) | ((8 & 0x3ff) << 22)].  For
    any other triple the packer raises. *)
Theorem enc_vert_unreal_formula :
  (forall x y z : float,
      valid x = true -> valid y = true -> valid z = true ->
      is_finite (mul x (of_int 8)) = true ->
      is_finite (mul y (of_int 8)) = true ->
      is_finite (mul z (of_int 4)) = true ->
      enc_vert_unreal (x, y, z) =
      Ok (Z.lor (Z.lor (Z.land (trunc (value x * 8)) 0x7ff)
                       (Z.shiftl (Z.land (trunc (value y * 8)) 0x7ff) 11))
                (Z.shiftl (Z.land (trunc (value z * 4)) 0x3ff) 22))) /\
  (forall q : Q,
      ((0 <= q)%Q -> (inject_Z (trunc q) <= q)%Q /\
                     (q < inject_Z (trunc q + 1))%Q /\ 0 <= trunc q) /\
      ((q <= 0)%Q -> (inject_Z (trunc q - 1) < q)%Q /\
                     (q <= inject_Z (trunc q))%Q /\ trunc q <= 0)) /\
  enc_vert UNREAL1
    (scale_coord (of_int 1)
       (flip_verts false false false (of_int 10, of_int (-5), of_int 2)))
  = Ok (Z.lor (Z.lor (Z.land 80 0x7ff) (Z.shiftl (Z.land (-40) 0x7ff) 11))
              (Z.shiftl (Z.land 8 0x3ff) 22)) /\
  (forall x y z : float,
      is_finite (mul x (of_int 8)) = false \/
      is_finite (mul y (of_int 8)) = false \/
      is_finite (mul z (of_int 4)) = false ->
      exists e, enc_vert_unreal (x, y, z) = Raise e).
Proof.
  split; [|split; [|split]].
  - intros x y z Vx Vy Vz Fx Fy Fz. unfold enc_vert_unreal.
    change (of_int 8) with (S754_finite false (2 ^ 52) (3 - 52)) in *.
    change (of_int 4) with (S754_finite false (2 ^ 52) (2 - 52)) in *.
    rewrite (to_int_mul_pow2 x 3), (to_int_mul_pow2 y 3),
      (to_int_mul_pow2 z 2) by (assumption || lia).
    reflexivity.
  - exact trunc_toward_zero.
  - vm_compute. reflexivity.
  - intros x y z H. apply not_ok_raises.
    destruct (is_ok (enc_vert_unreal (x, y, z))) eqn:E; [|reflexivity].
    apply enc_vert_unreal_ok_iff in E. destruct E as (H1 & H2 & H3).
    destruct H as [H|[H|H]]; congruence.
Qed.

Lemma enc_vert_unreal_formula_witness :
  enc_vert_unreal (of_int 10, of_int (-5), of_int 2) = Ok 37666896.
Proof.
  rewrite (proj1 enc_vert_unreal_formula (of_int 10) (of_int (-5)) (of_int 2))
    by reflexivity.
  vm_compute. reflexivity.
Defined.

(** C9, as stated, fails: the claim gives a packed value for every
    triple, but a triple with a NaN or an infinite component has none:
    [int()] raises. *)
Lemma enc_vert_deusex_nan_counterexample :
  let o := of_int 0 in
  enc_vert_deusex (o, o, nan) = Raise ValueError /\
  enc_vert_deusex (inf, o, o) = Raise OverflowError /\
  (forall r, enc_vert_deusex (o, o, nan) <> Ok r).
Proof.
  split; [vm_compute; reflexivity|]. split; [vm_compute; reflexivity|].
  intros r H. vm_compute in H. discriminate H.
Qed.

(** C9, amended: for every triple of floats whose components scaled by
    256 are finite, Extended packing returns
    [(trunc(x*256) & 0xFFFF) | ((trunc(y*256) & 0xFFFF) << 16)
     | ((trunc(z*256) & 0xFFFF) << 32)], with exact products and
    truncation toward zero; the result is below [2^48] and is written as
    a 64-bit field.  For any other triple the packer raises. *)
Theorem enc_vert_deusex_formula :
  (forall x y z : float,
      valid x = true -> valid y = true -> valid z = true ->
      is_finite (mul x (of_int 256)) = true ->
      is_finite (mul y (of_int 256)) = true ->
      is_finite (mul z (of_int 256)) = true ->
      enc_vert_deusex (x, y, z) =
      Ok (Z.lor (Z.lor (Z.land (trunc (value x * 256)) 0xffff)
                       (Z.shiftl (Z.land (trunc (value y * 256)) 0xffff) 16))
                (Z.shiftl (Z.land (trunc (value z * 256)) 0xffff) 32))) /\
  (forall c r,
      enc_vert_deusex c = Ok r ->
      0 <= r < 2 ^ 48 /\
      pack_std (vert_data_type DEUSEX) r = Ok (le_split 8 r)) /\
  (forall q : Q,
      ((0 <= q)%Q -> (inject_Z (trunc q) <= q)%Q /\
                     (q < inject_Z (trunc q + 1))%Q /\ 0 <= trunc q) /\
      ((q <= 0)%Q -> (inject_Z (trunc q - 1) < q)%Q /\
                     (q <= inject_Z (trunc q))%Q /\ trunc q <= 0)) /\
  (forall x y z : float,
      is_finite (mul x (of_int 256)) = false \/
      is_finite (mul y (of_int 256)) = false \/
      is_finite (mul z (of_int 256)) = false ->
      exists e, enc_vert_deusex (x, y, z) = Raise e).
Proof.
  split; [|split; [|split]].
  - intros x y z Vx Vy Vz Fx Fy Fz. unfold enc_vert_deusex.
    change (of_int 256) with (S754_finite false (2 ^ 52) (8 - 52)) in *.
    rewrite (to_int_mul_pow2 x 8), (to_int_mul_pow2 y 8),
      (to_int_mul_pow2 z 8) by (assumption || lia).
    reflexivity.
  - intros c r H. pose proof (enc_vert_deusex_range c r H) as Hr.
    split; [exact Hr|]. cbn [vert_data_type pack_std].
    assert (2 ^ 48 < 2 ^ 64) by (apply Z.pow_lt_mono_r; lia).
    apply pack_int_ok. lia.
  - exact trunc_toward_zero.
  - intros x y z H. apply not_ok_raises.
    destruct (is_ok (enc_vert_deusex (x, y, z))) eqn:E; [|reflexivity].
    apply enc_vert_deusex_ok_iff in E. destruct E as (H1 & H2 & H3).
    destruct H as [H|[H|H]]; congruence.
Qed.

Lemma enc_vert_deusex_formula_witness :
  enc_vert_deusex (of_int 10, of_int (-5), of_int 2)
  = Ok (Z.lor (Z.lor (Z.land 2560 0xffff) (Z.shiftl (Z.land (-1280) 0xffff) 16))
              (Z.shiftl (Z.land 512 0xffff) 32)).
Proof.
  rewrite (proj1 enc_vert_deusex_formula (of_int 10) (of_int (-5)) (of_int 2))
    by reflexivity.
  vm_compute. reflexivity.
Defined.

(** A valid float of magnitude below [2^1000] can be scaled by [2^k],
    [k <= 8], without overflow. *)
Lemma mul_pow2_finite (x : float) (k : Z) :
  0 <= k <= 8 ->
  valid x = true ->
  lt (SFabs x) two_pow_1000 = true ->
  is_finite (mul x (S754_finite false (2 ^ 52) (k - 52))) = true.
Proof.
  intros Hk Hv Hlt. destruct x as [s|s| |s mx ex]; try discriminate.
  - reflexivity.
  - unfold valid in Hv. cbn [valid_binary] in Hv.
    destruct (mul_pow2_shape s mx ex k ltac:(lia) Hv) as [_ Heq].
    cbv zeta in Heq. rewrite Heq. clear Heq.
    unfold bounded, canonical_mantissa in Hv.
    apply andb_prop in Hv as [Hc _]. apply Z.eqb_eq in Hc.
    rewrite fexp_eq in Hc |- *. cbn [Zdigits2] in *.
    assert (Hex : ex <= 948).
    { unfold lt, SFltb, two_pow_1000 in Hlt. cbn [SFabs SFcompare] in Hlt.
      destruct (ex ?= 948) eqn:E; try discriminate.
      - apply Z.compare_eq in E. lia.
      - pose proof (proj1 (Z.compare_lt_iff _ _) E). lia. }
    replace (Z.max (Zpos (digits2_pos mx) + ex + k - 53) (-1074)
             <=? emax - prec) with true; [reflexivity|].
    symmetry. apply Z.leb_le. unfold emax, prec. lia.
Qed.

(** C10, as stated, fails: the packers raise on a NaN, on an infinity,
    and on the finite float [2^1021], whose product with 8 overflows. *)
Lemma enc_vert_raises_counterexample :
  let o := of_int 0 in
  let big := S754_finite false (2 ^ 52) 969 in
  enc_vert_unreal (nan, o, o) = Raise ValueError /\
  enc_vert_unreal (inf, o, o) = Raise OverflowError /\
  valid big = true /\ is_finite big = true /\
  enc_vert_unreal (big, o, o) = Raise OverflowError /\
  enc_vert_deusex (big, o, o) = Raise OverflowError.
Proof. repeat split; vm_compute; reflexivity. Qed.

(** C10, amended: the vertex packers return exactly when the three scaled
    components are finite floats, which is the case for every triple of
    floats of magnitude below [2^1000], in range or not; they raise
    otherwise (NaN, infinity, overflow of the product).  When they return,
    an out-of-range component has silently wrapped through the bit mask
    ([a & (2^n - 1) = a mod 2^n]) and the result fits its field: a
    non-negative integer below [2^32] for Engine, below [2^48] for
    Extended. *)
Theorem enc_vert_no_failure_on_finite :
  (forall x y z,
      is_ok (enc_vert_unreal (x, y, z)) = true <->
      is_finite (mul x (of_int 8)) = true /\
      is_finite (mul y (of_int 8)) = true /\
      is_finite (mul z (of_int 4)) = true) /\
  (forall x y z,
      is_ok (enc_vert_deusex (x, y, z)) = true <->
      is_finite (mul x (of_int 256)) = true /\
      is_finite (mul y (of_int 256)) = true /\
      is_finite (mul z (of_int 256)) = true) /\
  (forall fmt x y z,
      valid x = true -> valid y = true -> valid z = true ->
      lt (SFabs x) two_pow_1000 = true ->
      lt (SFabs y) two_pow_1000 = true ->
      lt (SFabs z) two_pow_1000 = true ->
      is_ok (enc_vert fmt (x, y, z)) = true) /\
  (forall c r, enc_vert_unreal c = Ok r -> 0 <= r < 2 ^ 32) /\
  (forall c r, enc_vert_deusex c = Ok r -> 0 <= r < 2 ^ 48) /\
  (forall a, Z.land a 0x7ff = a mod 2 ^ 11 /\
             Z.land a 0x3ff = a mod 2 ^ 10 /\
             Z.land a 0xffff = a mod 2 ^ 16) /\
  (enc_vert_unreal (of_int 256, of_int (-256), of_int 512)
   = enc_vert_unreal (of_int 0, of_int 0, of_int 0) /\
   enc_vert_unreal (of_int 128, of_int 0, of_int 0) = Ok 1024 /\
   enc_vert_unreal (of_int (-128), of_int 0, of_int 0) = Ok 1024).
Proof.
  split; [exact enc_vert_unreal_ok_iff|].
  split; [exact enc_vert_deusex_ok_iff|].
  split; [|split; [exact enc_vert_unreal_range|
           split; [exact enc_vert_deusex_range|split]]].
  - intros fmt x y z Vx Vy Vz Lx Ly Lz. destruct fmt; cbn [enc_vert].
    + apply enc_vert_unreal_ok_iff.
      change (of_int 8) with (S754_finite false (2 ^ 52) (3 - 52)).
      change (of_int 4) with (S754_finite false (2 ^ 52) (2 - 52)).
      repeat split; apply mul_pow2_finite; assumption || lia.
    + apply enc_vert_deusex_ok_iff.
      change (of_int 256) with (S754_finite false (2 ^ 52) (8 - 52)).
      repeat split; apply mul_pow2_finite; assumption || lia.
  - intros a.
    change 0x7ff with (Z.ones 11). change 0x3ff with (Z.ones 10).
    change 0xffff with (Z.ones 16).
    rewrite !Z.land_ones by lia. auto.
  - repeat split; vm_compute; reflexivity.
Qed.

Lemma enc_vert_no_failure_on_finite_witness :
  is_ok (enc_vert DEUSEX (of_int 100000, of_int (-5), of_int 2)) = true.
Proof.
  apply (proj1 (proj2 (proj2 enc_vert_no_failure_on_finite))); reflexivity.
Defined.
